(** * postgres_settings: reconciliation and schema generation

    A shallow embedding of [tools/postgres_settings.py] and the
    properties of its schema generator, its category loader and its
    driver.

    Python dictionaries keep insertion order and the generated document
    is dumped with [sort_keys=False], so dictionaries are association
    lists with Python's assignment semantics ([dict_set] overwrites in
    place or appends).  The name sets compared by the driver are finite
    sets ([gset string]).  The generator prints warnings and may leave
    through an exception that nobody catches: it runs in a small
    writer-and-error monad [gen]. *)

From Stdlib Require Import ZArith QArith Ascii.
From stdpp Require Import base option list sorting strings gmap.

Open Scope string_scope.
Open Scope list_scope.

(** ** Python builtins used by the program *)

(** [int(s)] and [float(s)] on a string either return a number or raise
    [ValueError]; [None] stands for the exception.  The program is
    verified for every behaviour of the two builtins. *)
Class Builtins := {
  pyfloat : Type;
  py_int : string → option Z;
  py_float : string → option pyfloat;
}.

(** ** Ordered dictionaries *)

Section odict.
Context {V : Type}.

(** [d.get(k)] *)
Fixpoint dict_get (k : string) (d : list (string * V)) : option V :=
  match d with
  | [] => None
  | (k', v) :: d' => if decide (k = k') then Some v else dict_get k d'
  end.

(** [d[k] = v]: an existing key keeps its position, a new key goes last. *)
Fixpoint dict_set (k : string) (v : V) (d : list (string * V))
  : list (string * V) :=
  match d with
  | [] => [(k, v)]
  | (k', v') :: d' =>
      if decide (k = k') then (k, v) :: d' else (k', v') :: dict_set k v d'
  end.
End odict.

(** ** Data model *)

(** One row of [pg_settings] as [dict(row)].  The columns are text; the
    name, the description and the type are always there, the others can
    be NULL (Python's [None]); [enumvals] is a text array. *)
Record setting_row := {
  name : string;
  short_desc : string;
  vartype : string;
  unit_ : option string;
  min_val : option string;
  max_val : option string;
  enumvals : option (list string);
  reset_val : option string;
}.

(** The exceptions the generator can leave through. *)
Inductive exn :=
  | ValueError_int (literal : string)
      (* invalid literal for int() with base 10 *)
  | ValueError_float (literal : string).
      (* could not convert string to float *)

(** Lines printed on the error stream by the generator. *)
Inductive diagnostic :=
  | Warn_not_found (setting_name : string)
      (* Warning: Setting '...' from YAML not found in database data. Skipping. *)
  | Warn_convert (reset_value setting_name : string) (e : exn).
      (* Warning: Could not convert reset_val '...' for setting '...'. Error: ... *)

(** Printed warnings so far, and an exception or a value. *)
Definition gen (A : Type) : Type := list diagnostic * (exn + A).

Global Instance gen_ret : MRet gen := λ A a, ([], inr a).
Global Instance gen_bind : MBind gen := λ A B f m,
  match m with
  | (w, inl e) => (w, inl e)
  | (w, inr a) => let '(w', r) := f a in (w ++ w', r)
  end.

Definition raise {A} (e : exn) : gen A := ([], inl e).
Definition warn (d : diagnostic) : gen unit := ([d], inr tt).

(** Values stored in a property descriptor; [F] is the type of floats. *)
Inductive pyval (F : Type) :=
  | VStr (s : string)
  | VBool (b : bool)
  | VInt (z : Z)
  | VFloat (f : F)
  | VList (l : list string).

Arguments VStr {F} s.
Arguments VBool {F} b.
Arguments VInt {F} z.
Arguments VFloat {F} f.
Arguments VList {F} l.

Definition prop (F : Type) : Type := list (string * pyval F).

Record category_schema (F : Type) := {
  cs_type : string;
  cs_description : string;
  cs_properties : list (string * prop F);
}.

Arguments cs_type {F}.
Arguments cs_description {F}.
Arguments cs_properties {F}.

Record schema (F : Type) := {
  s_type : string;
  s_description : string;
  s_properties : list (string * category_schema F);
}.

Arguments s_type {F}.
Arguments s_description {F}.
Arguments s_properties {F}.

Section generator.
Context `{B : Builtins}.

Definition int_ (s : string) : gen Z :=
  match py_int s with
  | Some z => mret z
  | None => raise (ValueError_int s)
  end.

Definition float_ (s : string) : gen pyfloat :=
  match py_float s with
  | Some f => mret f
  | None => raise (ValueError_float s)
  end.

Definition type_mapping : list (string * string) :=
  [("bool", "boolean"); ("integer", "integer"); ("real", "number");
   ("string", "string"); ("enum", "string")].

(** The body of the [try] of lines 82-90: the value stored under
    [default], or the exception the [except] clause catches. *)
Definition convert_reset_val (pg_type reset_val : string) : exn + pyval pyfloat :=
  if decide (pg_type = "bool") then
    inr (VBool (bool_decide (reset_val = "on")))
  else if decide (pg_type = "integer") then
    match py_int reset_val with
    | Some z => inr (VInt z)
    | None => inl (ValueError_int reset_val)
    end
  else if decide (pg_type = "real") then
    match py_float reset_val with
    | Some f => inr (VFloat f)
    | None => inl (ValueError_float reset_val)
    end
  else inr (VStr reset_val).

(** Line 71: [type_mapping.get(pg_type, 'string')] *)
Definition json_type (pg_type : string) : string :=
  default "string" (dict_get pg_type type_mapping).

(** Lines 74-76: the short description, with the unit when there is one. *)
Definition description (setting_data : setting_row) : string :=
  match unit_ setting_data with
  | Some u =>
      if decide (u = "") then short_desc setting_data
      else short_desc setting_data +:+ " (Unit: " +:+ u +:+ ")"
  | None => short_desc setting_data
  end.

(** Lines 69-105: the descriptor of one setting found in the database. *)
Definition build_prop (setting_name : string) (setting_data : setting_row)
  : gen (prop pyfloat) :=
  let prop := [] in
  let pg_type := vartype setting_data in
  let prop := dict_set "type" (VStr (json_type pg_type)) prop in
  let prop := dict_set "description" (VStr (description setting_data)) prop in
  prop ← match reset_val setting_data with
         | Some rv =>
             match convert_reset_val pg_type rv with
             | inr v => mret (dict_set "default" v prop)
             | inl e => warn (Warn_convert rv setting_name e) ;; mret prop
             end
         | None => mret prop
         end;
  prop ← match decide (pg_type = "integer"), min_val setting_data with
         | left _, Some s => z ← int_ s; mret (dict_set "minimum" (VInt z) prop)
         | _, _ => mret prop
         end;
  prop ← match decide (pg_type = "integer"), max_val setting_data with
         | left _, Some s => z ← int_ s; mret (dict_set "maximum" (VInt z) prop)
         | _, _ =>
             match decide (pg_type = "real"), min_val setting_data with
             | left _, Some s =>
                 f ← float_ s; mret (dict_set "minimum" (VFloat f) prop)
             | _, _ => mret prop
             end
         end;
  prop ← match decide (pg_type = "real"), max_val setting_data with
         | left _, Some s =>
             f ← float_ s; mret (dict_set "maximum" (VFloat f) prop)
         | _, _ => mret prop
         end;
  let prop :=
    match decide (pg_type = "enum"), enumvals setting_data with
    | left _, Some (v :: vs) => dict_set "enum" (VList (v :: vs)) prop
    | _, _ => prop
    end in
  mret prop.

(** Lines 63-107: the loop over the names of one category, already
    sorted, filling [category_schema['properties']]. *)
Fixpoint settings_loop (db_settings_data : list (string * setting_row))
    (names : list string) (properties : list (string * prop pyfloat))
  : gen (list (string * prop pyfloat)) :=
  match names with
  | [] => mret properties
  | setting_name :: names' =>
      match dict_get setting_name db_settings_data with
      | None =>
          warn (Warn_not_found setting_name) ;;
          settings_loop db_settings_data names' properties
      | Some setting_data =>
          prop ← build_prop setting_name setting_data;
          settings_loop db_settings_data names'
            (dict_set setting_name prop properties)
      end
  end.

(** Python's [sorted] on strings: ascending by code point. *)
Definition sorted (l : list string) : list string := merge_sort String.le l.

(** Lines 57-61 and 63-107: the sub-schema of one category. *)
Definition build_category (db_settings_data : list (string * setting_row))
    (category_name : string) (settings_list : list string)
  : gen (category_schema pyfloat) :=
  properties ← settings_loop db_settings_data (sorted settings_list) [];
  mret {| cs_type := "object";
         cs_description :=
           "Settings for the " +:+ category_name +:+ " category.";
         cs_properties := properties |}.

(** Lines 56-109: the loop over [categories.items()]. *)
Fixpoint categories_loop (db_settings_data : list (string * setting_row))
    (items : list (string * list string))
    (properties : list (string * category_schema pyfloat))
  : gen (list (string * category_schema pyfloat)) :=
  match items with
  | [] => mret properties
  | (category_name, settings_list) :: items' =>
      category_schema ←
        build_category db_settings_data category_name settings_list;
      categories_loop db_settings_data items'
        (dict_set category_name category_schema properties)
  end.

Definition generate_schema_yaml
    (db_settings_data : list (string * setting_row))
    (categories : list (string * list string))
  : gen (schema pyfloat) :=
  properties ← categories_loop db_settings_data categories [];
  mret {| s_type := "object";
         s_description :=
           "Schema for PostgreSQL configuration settings (postgresql.conf), grouped by category.";
         s_properties := properties |}.

End generator.

(** ** The settings source *)

(** What connecting and running the query gives: a [psycopg2.Error], or
    the rows fetched (the rows of [pg_settings] whose context is not
    [internal]; the selection is the database's). *)
Inductive query_result :=
  | Query_error
  | Fetched (rows : list setting_row).

Inductive source_result :=
  | Settings (db_settings_data : list (string * setting_row))
  | Source_exited (status : Z).
      (* Database connection error: ... on the error stream, then
         sys.exit(status) *)

(** [{row['name']: dict(row) for row in rows}] *)
Definition rows_to_dict (rows : list setting_row)
  : list (string * setting_row) :=
  foldl (λ d row, dict_set (name row) row d) [] rows.

Definition get_postgres_settings (q : query_result) : source_result :=
  match q with
  | Query_error => Source_exited 1
  | Fetched rows => Settings (rows_to_dict rows)
  end.

(** ** The category loader *)

#[local] Unset Elimination Schemes.

(** What [yaml.safe_load] returns: [None] for an empty document, a
    scalar, a list or a mapping. *)
Inductive pyobj :=
  | ONone
  | OBool (b : bool)
  | OInt (z : Z)
  | OFloat (literal : string)
  | OStr (s : string)
  | OList (l : list pyobj)
  | ODict (d : list (pyobj * pyobj)).

#[local] Set Elimination Schemes.

(** What opening and parsing the category file gives. *)
Inductive yaml_file :=
  | File_not_found
  | Yaml_error
  | Loaded (data : pyobj).

Inductive type_error :=
  | Not_iterable          (* argument of type '...' is not iterable *)
  | Bad_index.            (* list / string indices must be integers *)

Inductive loader_message :=
  | Err_categories        (* Error: 'categories' key not found or not a dictionary in <path> *)
  | Err_not_found         (* Error: YAML file not found at <path> *)
  | Err_parse.            (* Error parsing YAML file: ... *)

Inductive loader_result :=
  | Returned (categories : list (pyobj * pyobj))
  | Exited (message : loader_message) (status : Z)
      (* the message on the error stream, then sys.exit(status) *)
  | Uncaught (e : type_error).
      (* a TypeError no handler catches: the interpreter prints a
         traceback and the process ends with status 1 *)

Definition is_categories (o : pyobj) : bool :=
  match o with
  | OStr s => bool_decide (s = "categories")
  | _ => false
  end.

(** [p in s] on two strings. *)
Fixpoint is_substring (p s : string) : bool :=
  String.prefix p s ||
  match s with
  | "" => false
  | String _ s' => is_substring p s'
  end.

(** ['categories' in data] *)
Definition contains_categories (data : pyobj) : type_error + bool :=
  match data with
  | ODict d => inr (existsb (λ kv, is_categories kv.1) d)
  | OList l => inr (existsb is_categories l)
  | OStr s => inr (is_substring "categories" s)
  | ONone | OBool _ | OInt _ | OFloat _ => inl Not_iterable
  end.

(** [data['categories']] *)
Definition get_categories (data : pyobj) : type_error + option pyobj :=
  match data with
  | ODict d => inr (snd <$> find (λ kv, is_categories kv.1) d)
  | _ => inl Bad_index
  end.

Definition get_yaml_categories (f : yaml_file) : loader_result :=
  match f with
  | File_not_found => Exited Err_not_found 1
  | Yaml_error => Exited Err_parse 1
  | Loaded data =>
      match contains_categories data with
      | inl e => Uncaught e
      | inr false => Exited Err_categories 1
      | inr true =>
          match get_categories data with
          | inl e => Uncaught e
          | inr (Some (ODict categories)) => Returned categories
          | inr _ => Exited Err_categories 1
          end
      end
  end.

(** ** The driver *)

Record arguments := {
  host : string;
  port : string;
  yaml_file_path : string;
  output_schema_file : string;
}.

(** Lines of the standard output. *)
Inductive message :=
  | Msg_comparing
  | Msg_connecting (host port : string)
  | Msg_found_db (settings : nat)
  | Msg_loading (path : string)
  | Msg_found_yaml (settings categories : nat)
  | Msg_results
  | Msg_in_sync
  | Msg_generating (path : string)
  | Msg_generated (path : string)
  | Msg_yaml_not_db
  | Msg_db_not_yaml
  | Msg_item (setting_name : string).

(** Lines of the error stream. *)
Inductive error_line :=
  | Err_warning (d : diagnostic)
  | Err_write (path : string)     (* Error writing to <path>: ... *)
  | Err_traceback (e : exn).      (* the traceback of an uncaught exception *)

Record run (F : Type) := {
  stdout : list message;
  stderr : list error_line;
  output_file : option (schema F);   (* what was dumped to the output path *)
  exit_status : Z;
}.

Arguments stdout {F}.
Arguments stderr {F}.
Arguments output_file {F}.
Arguments exit_status {F}.

Section driver.
Context `{B : Builtins}.

(** [set(db_settings_data.keys())] *)
Definition db_settings (db_settings_data : list (string * setting_row))
  : gset string := list_to_set db_settings_data.*1.

(** [{setting for sublist in yaml_categories.values() for setting in sublist}] *)
Definition yaml_settings (yaml_categories : list (string * list string))
  : gset string := ⋃ (list_to_set <$> yaml_categories.*2).

Definition in_yaml_not_in_db db_settings_data yaml_categories : list string :=
  sorted (elements (yaml_settings yaml_categories ∖ db_settings db_settings_data)).

Definition in_db_not_in_yaml db_settings_data yaml_categories : list string :=
  sorted (elements (db_settings db_settings_data ∖ yaml_settings yaml_categories)).

(** Lines 144-186, with the results of the two loaders (lines 147 and
    152) and whether the output path can be opened for writing as
    arguments. *)
Definition main (args : arguments)
    (db_settings_data : list (string * setting_row))
    (yaml_categories : list (string * list string))
    (writable : bool) : run pyfloat :=
  let out :=
    [Msg_comparing; Msg_connecting (host args) (port args);
     Msg_found_db (size (db_settings db_settings_data));
     Msg_loading (yaml_file_path args);
     Msg_found_yaml (size (yaml_settings yaml_categories))
                    (length yaml_categories);
     Msg_results] in
  let missing := in_yaml_not_in_db db_settings_data yaml_categories in
  let extra := in_db_not_in_yaml db_settings_data yaml_categories in
  match missing, extra with
  | [], [] =>
      let out := out ++ [Msg_in_sync; Msg_generating (output_schema_file args)] in
      match generate_schema_yaml db_settings_data yaml_categories with
      | (w, inr schema_content) =>
          if writable then
            {| stdout := out ++ [Msg_generated (output_schema_file args)];
               stderr := Err_warning <$> w;
               output_file := Some schema_content;
               exit_status := 0 |}
          else
            {| stdout := out;
               stderr := (Err_warning <$> w) ++ [Err_write (output_schema_file args)];
               output_file := None;
               exit_status := 1 |}
      | (w, inl e) =>
          {| stdout := out;
             stderr := (Err_warning <$> w) ++ [Err_traceback e];
             output_file := None;
             exit_status := 1 |}
      end
  | _, _ =>
      {| stdout :=
           out
           ++ (if missing is [] then []
               else Msg_yaml_not_db :: (Msg_item <$> missing))
           ++ (if extra is [] then []
               else Msg_db_not_yaml :: (Msg_item <$> extra));
         stderr := [];
         output_file := None;
         exit_status := 1 |}
  end.
End driver.

(** ** A reference behaviour of the builtins *)

(** [int] and [float] on ASCII decimal literals: surrounding white space,
    an optional sign, digits with single underscores between digits and,
    for [float], an optional fraction.  A float is represented by the
    rational number its literal denotes, without the rounding to a
    double.  Literals with exponents, infinities and NaNs, which Python
    accepts, and non-ASCII digits are rejected by this instance: it is
    used only to run the program on concrete inputs without them. *)
Module Decimal.

Definition is_space (c : ascii) : bool := Ascii.is_space c.

Fixpoint lstrip (l : list ascii) : list ascii :=
  match l with
  | c :: l' => if is_space c then lstrip l' else l
  | [] => []
  end.

Definition strip (l : list ascii) : list ascii :=
  reverse (lstrip (reverse (lstrip l))).

(** A group of digits with single underscores between digits: its
    value and its number of digits. *)
Fixpoint digits (acc : Z) (n : nat) (after_digit : bool) (l : list ascii)
  : option (Z * nat) :=
  match l with
  | [] => if after_digit then Some (acc, n) else None
  | c :: l' =>
      match Ascii.is_nat c with
      | Some d => digits (10 * acc + Z.of_nat d) (S n) true l'
      | None =>
          if after_digit && bool_decide (c = "_"%char)
          then digits acc n false l'
          else None
      end
  end.

Definition signed (l : list ascii) : bool * list ascii :=
  match l with
  | "-"%char :: l' => (true, l')
  | "+"%char :: l' => (false, l')
  | _ => (false, l)
  end.

Definition int (s : string) : option Z :=
  let '(neg, l) := signed (strip (String.list_ascii_of_string s)) in
  '(z, _) ← digits 0 0 false l;
  Some (if neg then - z else z)%Z.

Fixpoint split_dot (l : list ascii) : list ascii * option (list ascii) :=
  match l with
  | [] => ([], None)
  | "."%char :: l' => ([], Some l')
  | c :: l' => let '(a, b) := split_dot l' in (c :: a, b)
  end.

Definition group (l : list ascii) : option (Z * nat) :=
  if l is [] then Some (0%Z, 0) else digits 0 0 false l.

Definition float (s : string) : option Q :=
  let '(neg, l) := signed (strip (String.list_ascii_of_string s)) in
  let '(i, f) := split_dot l in
  '(zi, ni) ← group i;
  '(zf, nf) ← group (default [] f);
  if decide (ni + nf = 0) then None
  else
    let m := (zi * 10 ^ Z.of_nat nf + zf)%Z in
    Some (Qred (Qmake (if neg then - m else m) (Z.to_pos (10 ^ Z.of_nat nf)))).

#[export] Instance builtins : Builtins :=
  {| pyfloat := Q; py_int := int; py_float := float |}.

End Decimal.

(** ** The program on the scenario of the specification *)

Module Scenario.
Import Decimal.

Definition shared_buffers : setting_row :=
  {| name := "shared_buffers";
     short_desc := "Sets the number of shared memory buffers used by the server.";
     vartype := "integer"; unit_ := Some "8kB";
     min_val := Some "16"; max_val := Some "2147483647";
     enumvals := None; reset_val := Some "16384" |}.

Definition log_min_messages : setting_row :=
  {| name := "log_min_messages";
     short_desc := "Sets the message levels that are logged.";
     vartype := "enum"; unit_ := None;
     min_val := None; max_val := None;
     enumvals := Some ["debug5"; "debug1"; "info"; "warning"];
     reset_val := Some "warning" |}.

Definition store : list (string * setting_row) :=
  [("shared_buffers", shared_buffers); ("log_min_messages", log_min_messages)].

Definition categories : list (string * list string) :=
  [("memory", ["shared_buffers"]); ("logging", ["log_min_messages"])].

Definition args : arguments :=
  {| host := "localhost"; port := "5432";
     yaml_file_path := "source/parameters.yaml";
     output_schema_file := "source/postgresql.conf.yaml" |}.

End Scenario.


(** ** Further inputs *)

Module Examples.
Import Decimal.

Definition autovacuum : setting_row :=
  {| name := "autovacuum";
     short_desc := "Starts the autovacuum subprocess.";
     vartype := "bool"; unit_ := None;
     min_val := None; max_val := None;
     enumvals := None; reset_val := Some "on" |}.

Definition fsync : setting_row :=
  {| name := "fsync";
     short_desc := "Forces synchronization of updates to disk.";
     vartype := "bool"; unit_ := None;
     min_val := None; max_val := None;
     enumvals := None; reset_val := Some "true" |}.

Definition checkpoint_completion_target : setting_row :=
  {| name := "checkpoint_completion_target";
     short_desc := "Time spent flushing dirty buffers during checkpoint, as fraction of checkpoint interval.";
     vartype := "real"; unit_ := None;
     min_val := Some "0"; max_val := None;
     enumvals := None; reset_val := Some "0.9" |}.

(** An [integer] setting whose reset value is not a number. *)
Definition work_mem : setting_row :=
  {| name := "work_mem";
     short_desc := "Sets the maximum memory to be used for query workspaces.";
     vartype := "integer"; unit_ := Some "kB";
     min_val := Some "64"; max_val := Some "2147483647";
     enumvals := None; reset_val := Some "4MB" |}.

(** An [integer] setting whose lower bound is not a number. *)
Definition max_connections : setting_row :=
  {| name := "max_connections";
     short_desc := "Sets the maximum number of concurrent connections.";
     vartype := "integer"; unit_ := None;
     min_val := Some "one"; max_val := Some "262143";
     enumvals := None; reset_val := Some "100" |}.

Definition store : list (string * setting_row) :=
  [("shared_buffers", Scenario.shared_buffers);
   ("log_min_messages", Scenario.log_min_messages);
   ("autovacuum", autovacuum);
   ("fsync", fsync);
   ("checkpoint_completion_target", checkpoint_completion_target);
   ("work_mem", work_mem)].

(** Names declared out of lexicographic order. *)
Definition categories : list (string * list string) :=
  [("memory", ["work_mem"; "shared_buffers"]);
   ("logging", ["log_min_messages"]);
   ("maintenance", ["fsync"; "checkpoint_completion_target"; "autovacuum"])].

(** The same categories with names repeated. *)
Definition categories_repeated : list (string * list string) :=
  [("memory", ["work_mem"; "shared_buffers"; "work_mem"]);
   ("logging", ["log_min_messages"; "log_min_messages"]);
   ("maintenance",
    ["fsync"; "checkpoint_completion_target"; "fsync"; "autovacuum"])].

(** A store with a malformed bound, and categories in agreement
    with it. *)
Definition store_bad_bound : list (string * setting_row) :=
  [("max_connections", max_connections);
   ("shared_buffers", Scenario.shared_buffers)].

Definition categories_bad_bound : list (string * list string) :=
  [("connections", ["max_connections"]); ("memory", ["shared_buffers"])].

End Examples.

(** ** Vocabulary of the statements *)

Section vocabulary.
Context `{B : Builtins}.

(** A descriptor [p] of the generated document, under the name [n] in
    some category, together with the record [r] of that name. *)
Definition emitted (db_settings_data : list (string * setting_row))
    (categories : list (string * list string))
    (n : string) (r : setting_row) (p : prop pyfloat) : Prop :=
  ∃ w doc c cs,
    generate_schema_yaml db_settings_data categories = (w, inr doc) ∧
    dict_get c (s_properties doc) = Some cs ∧
    dict_get n (cs_properties cs) = Some p ∧
    dict_get n db_settings_data = Some r.

(** The value a bound is read as: by [int] for an [integer] setting,
    by [float] for a [real] one, and not at all for the others. *)
Definition numeric_bound (pg_type : string) (bound : option string)
  : option (pyval pyfloat) :=
  s ← bound;
  if decide (pg_type = "integer") then VInt <$> py_int s
  else if decide (pg_type = "real") then VFloat <$> py_float s
  else None.

(** The value of [default]: the converted reset value, when there is
    one and it converts. *)
Definition default_value (r : setting_row) : option (pyval pyfloat) :=
  s ← reset_val r;
  if convert_reset_val (vartype r) s is inr v then Some v else None.

(** The value of [enum]: the values of an [enum] record that has some. *)
Definition enum_value (r : setting_row) : option (pyval pyfloat) :=
  if decide (vartype r = "enum") then
    match enumvals r with
    | Some (v :: vs) => Some (VList (v :: vs))
    | _ => None
    end
  else None.

(** The key [k] with its value, or nothing. *)
Definition entry (k : string) (o : option (pyval pyfloat))
  : prop pyfloat :=
  if o is Some v then [(k, v)] else [].

(** The record with its reset value set to NULL. *)
Definition without_reset_val (r : setting_row) : setting_row :=
  {| name := name r; short_desc := short_desc r; vartype := vartype r;
     unit_ := unit_ r; min_val := min_val r; max_val := max_val r;
     enumvals := enumvals r; reset_val := None |}.

(** The record without its reset value when that value does not
    convert, and the record itself otherwise. *)
Definition without_bad_default (r : setting_row) : setting_row :=
  match reset_val r with
  | Some s =>
      if convert_reset_val (vartype r) s is inl _
      then without_reset_val r else r
  | None => r
  end.

(** The bounds of a numeric record are read by the builtin of its
    type. *)
Definition bounds_ok (r : setting_row) : Prop :=
  ∀ s, min_val r = Some s ∨ max_val r = Some s →
       (vartype r = "integer" → is_Some (py_int s)) ∧
       (vartype r = "real" → is_Some (py_float s)).

(** The names of [l] that are not in [seen], each at its first
    occurrence. *)
Fixpoint nub_acc (seen l : list string) : list string :=
  match l with
  | [] => []
  | x :: l' =>
      if decide (x ∈ seen) then nub_acc seen l'
      else x :: nub_acc (x :: seen) l'
  end.

(** The name [x] has been dealt with: it is not in the database, or
    its descriptor is in [properties]. *)
Definition settled (db_settings_data : list (string * setting_row))
    (properties : list (string * prop pyfloat)) (x : string) : Prop :=
  match dict_get x db_settings_data with
  | None => True
  | Some r =>
      ∃ w p, build_prop x r = (w, inr p) ∧ dict_get x properties = Some p
  end.

(** [l'] has the names of [l], once each. *)
Definition deduplicated (l l' : list string) : Prop :=
  NoDup l' ∧ ∀ x, x ∈ l' ↔ x ∈ l.

(** The database has a record for the name [x]. *)
Definition found (db_settings_data : list (string * setting_row))
    (x : string) : Prop :=
  is_Some (dict_get x db_settings_data).

(** Strict lexicographic order. *)
Definition str_lt (s1 s2 : string) : Prop := String.ltb s1 s2.

(** The value [v] is of the JSON type [ty]. *)
Definition conforms (ty : string) (v : pyval pyfloat) : Prop :=
  match v with
  | VBool _ => ty = "boolean"
  | VInt _ => ty = "integer"
  | VFloat _ => ty = "number"
  | VStr _ => ty = "string"
  | VList _ => False
  end.

(** The keys of a descriptor, in the order in which the generator
    assigns them. *)
Definition descriptor_keys : list string :=
  ["type"; "description"; "default"; "minimum"; "maximum"; "enum"].

(** The name [n] is listed in some category. *)
Definition listed (categories : list (string * list string)) (n : string)
  : Prop :=
  ∃ c l, (c, l) ∈ categories ∧ n ∈ l.

End vocabulary.

(** * Properties *)

(** ** The monad *)

Section gen_facts.
Context {A C : Type}.
Implicit Types (m : gen A) (f g : A → gen C).

Lemma bind_returns m f w c :
  m ≫= f = (w, inr c) →
  ∃ w1 a w2, m = (w1, inr a) ∧ f a = (w2, inr c) ∧ w = w1 ++ w2.
Proof.
  destruct m as [w1 [e|a]]; unfold mbind, gen_bind; [done|].
  destruct (f a) as [w2 r] eqn:Hf. intros [= <- ->]. by exists w1, a, w2.
Qed.

(** The outcome of a sequence depends on the outcomes of its parts
    only, not on what they print. *)
Lemma bind_outcome m1 m2 f g :
  m1.2 = m2.2 → (∀ a, (f a).2 = (g a).2) → (m1 ≫= f).2 = (m2 ≫= g).2.
Proof.
  destruct m1 as [w1 [e1|a1]], m2 as [w2 [e2|a2]]; simpl; intros [=] Hfg;
    subst; unfold mbind, gen_bind; try done.
  specialize (Hfg a2). by destruct (f a2), (g a2).
Qed.
End gen_facts.

(** ** Ordered dictionaries *)

Section odict_facts.
Context {V : Type}.
Implicit Types (d : list (string * V)) (k : string) (v : V).

Lemma dict_get_set_eq k v d : dict_get k (dict_set k v d) = Some v.
Proof.
  induction d as [|[k' v'] d IH]; simpl; repeat case_decide; simpl;
    repeat case_decide; done.
Qed.

Lemma dict_get_set_ne k k' v d :
  k ≠ k' → dict_get k' (dict_set k v d) = dict_get k' d.
Proof.
  intros Hne. induction d as [|[k1 v1] d IH]; simpl; repeat case_decide;
    simpl; repeat case_decide; congruence.
Qed.

Lemma dict_get_set k k' v d x :
  dict_get k' (dict_set k v d) = Some x →
  (k' = k ∧ x = v) ∨ (k' ≠ k ∧ dict_get k' d = Some x).
Proof.
  destruct (decide (k = k')) as [->|Hne].
  - rewrite dict_get_set_eq. intros [= ->]. by left.
  - rewrite dict_get_set_ne by done. intros. right. split; congruence.
Qed.

Lemma dict_get_None k d : dict_get k d = None ↔ k ∉ d.*1.
Proof.
  induction d as [|[k' v'] d IH]; csimpl.
  - split; [intros _; apply not_elem_of_nil|done].
  - rewrite not_elem_of_cons, <- IH. case_decide; intuition congruence.
Qed.

Lemma dict_get_Some_elem k d v : dict_get k d = Some v → (k, v) ∈ d.
Proof.
  induction d as [|[k' v'] d IH]; simpl; [done|].
  case_decide; [intros [= ->]; subst; left|right; auto].
Qed.

(** Assigning the value a key already has changes nothing. *)
Lemma dict_set_same k v d : dict_get k d = Some v → dict_set k v d = d.
Proof.
  induction d as [|[k' v'] d IH]; simpl; [done|].
  case_decide; [intros [= ->]; by subst|intros; f_equal; auto].
Qed.

(** A new key is appended. *)
Lemma dict_set_new k v d : dict_get k d = None → dict_set k v d = d ++ [(k, v)].
Proof.
  induction d as [|[k' v'] d IH]; simpl; [done|].
  case_decide; [done|intros; f_equal; auto].
Qed.

Lemma dict_set_keys k v d :
  (dict_set k v d).*1 = if dict_get k d is Some _ then d.*1 else d.*1 ++ [k].
Proof.
  induction d as [|[k' v'] d IH]; csimpl; [done|].
  case_decide; csimpl; [by subst|]. rewrite IH. by destruct (dict_get k d).
Qed.

Lemma dict_set_NoDup k v d : NoDup d.*1 → NoDup (dict_set k v d).*1.
Proof.
  intros Hd. rewrite dict_set_keys. destruct (dict_get k d) eqn:Hk; [done|].
  apply NoDup_app. split_and!; [done| |apply NoDup_singleton].
  intros x Hx ->%list_elem_of_singleton. by apply dict_get_None in Hk.
Qed.

(** A property of all values survives an assignment of a value that
    has it. *)
Lemma dict_set_Forall (P : string → V → Prop) k v d :
  P k v → Forall (uncurry P) d → Forall (uncurry P) (dict_set k v d).
Proof.
  intros Hv. induction 1 as [|[k' v'] d Hx Hd IH]; simpl.
  - by repeat constructor.
  - case_decide; constructor; auto.
Qed.
(** With distinct keys, the entries under a key that has a value are
    that one entry. *)
Lemma filter_key_NoDup k v d :
  NoDup d.*1 → dict_get k d = Some v →
  filter (λ kv, kv.1 = k) d = [(k, v)].
Proof.
  induction d as [|[k' v'] d IH]; csimpl; [done|].
  intros [Hk Hd]%NoDup_cons. case_decide as Heq.
  - subst k'. intros [= ->]. rewrite filter_cons_True by done. f_equal.
    clear IH Hd. induction d as [|[k1 v1] d IH]; [done|].
    csimpl in Hk. apply not_elem_of_cons in Hk as [Hne Hk].
    rewrite filter_cons_False by (simpl; congruence). by apply IH.
  - intros Hget. rewrite filter_cons_False by (simpl; congruence). by apply IH.
Qed.
End odict_facts.

(** ** One property descriptor *)

Section build_prop_facts.
Context `{B : Builtins}.
Implicit Types (r : setting_row) (p : prop pyfloat) (n s : string).

Local Ltac run_build_prop r :=
  unfold build_prop, default_value, enum_value, numeric_bound,
    convert_reset_val, int_, float_, raise, warn;
  let nm := fresh "nm" in let sd := fresh "sd" in let vt := fresh "vt" in
  let u := fresh "u" in let mn := fresh "mn" in let mx := fresh "mx" in
  let ev := fresh "ev" in let rv := fresh "rv" in
  destruct r as [nm sd vt u mn mx ev rv]; simpl;
  generalize (json_type vt);
  generalize (description {| name := nm; short_desc := sd; vartype := vt;
                             unit_ := u; min_val := mn; max_val := mx;
                             enumvals := ev; reset_val := rv |});
  intros ? ?;
  destruct rv as [rv|], mn as [mn|], mx as [mx|], ev as [[|? ?]|]; simpl;
  repeat case_decide; subst; try done; simpl;
  repeat (match goal with
          | |- context [py_int ?s] => destruct (py_int s) eqn:?
          | |- context [py_float ?s] => destruct (py_float s) eqn:?
          end; simpl);
  unfold mbind, gen_bind, mret, gen_ret; simpl.

(** The descriptor that is returned, key by key and in order. *)
Lemma build_prop_returns n r w p :
  build_prop n r = (w, inr p) →
  p = [("type", VStr (json_type (vartype r)));
       ("description", VStr (description r))]
      ++ entry "default" (default_value r)
      ++ entry "minimum" (numeric_bound (vartype r) (min_val r))
      ++ entry "maximum" (numeric_bound (vartype r) (max_val r))
      ++ entry "enum" (enum_value r).
Proof. run_build_prop r; congruence. Qed.

(** A bound that is a string is read successfully when a descriptor
    is returned. *)
Lemma build_prop_returns_bounds n r w p :
  build_prop n r = (w, inr p) →
  (vartype r = "integer" ∨ vartype r = "real") →
  (∀ s, min_val r = Some s → is_Some (numeric_bound (vartype r) (Some s))) ∧
  (∀ s, max_val r = Some s → is_Some (numeric_bound (vartype r) (Some s))).
Proof.
  intros Hp Hty. revert Hp Hty.
  run_build_prop r; intros; split; intros; simplify_eq/=;
    repeat case_decide; simplify_eq/=;
    repeat match goal with H : _ = Some _ |- _ => rewrite H end;
    repeat match goal with H : _ ∨ _ |- _ => destruct H end;
    simplify_eq/=; eauto.
Qed.

(** An [integer] bound that [int] rejects ends the descriptor, and
    with it the generator, in a [ValueError]. *)
Lemma build_prop_raises_min n r s :
  vartype r = "integer" → min_val r = Some s → py_int s = None →
  (build_prop n r).2 = inl (ValueError_int s).
Proof.
  intros Hty Hmin Hs. revert Hty Hmin.
  run_build_prop r; intros; simplify_eq/=; first [done | congruence].
Qed.
Lemma build_prop_lookup n r w p :
  build_prop n r = (w, inr p) →
  dict_get "type" p = Some (VStr (json_type (vartype r))) ∧
  dict_get "description" p = Some (VStr (description r)) ∧
  dict_get "default" p = default_value r ∧
  dict_get "minimum" p = numeric_bound (vartype r) (min_val r) ∧
  dict_get "maximum" p = numeric_bound (vartype r) (max_val r) ∧
  dict_get "enum" p = enum_value r.
Proof.
  intros ->%build_prop_returns.
  by destruct (default_value r), (numeric_bound _ (min_val r)),
    (numeric_bound _ (max_val r)), (enum_value r).
Qed.

Lemma convert_reset_val_fails pg_type s e :
  convert_reset_val pg_type s = inl e ↔
  (pg_type = "integer" ∧ py_int s = None ∧ e = ValueError_int s) ∨
  (pg_type = "real" ∧ py_float s = None ∧ e = ValueError_float s).
Proof.
  unfold convert_reset_val. repeat case_decide; subst;
    try destruct (py_int s) eqn:?; try destruct (py_float s) eqn:?;
    split; intros; destruct_or?; destruct_and?; simplify_eq; auto.
Qed.

(** A reset value that does not convert costs one warning and nothing
    else: what follows is what the record without it gives. *)
Lemma build_prop_bad_default n r s e :
  reset_val r = Some s → convert_reset_val (vartype r) s = inl e →
  build_prop n r =
    (Warn_convert s n e :: (build_prop n (without_reset_val r)).1,
     (build_prop n (without_reset_val r)).2).
Proof.
  destruct r as [nm sd vt u mn mx ev rv]; simpl. intros -> Hs.
  unfold build_prop, without_reset_val, int_, float_, raise, warn; simpl.
  rewrite Hs. unfold description; simpl.
  generalize (json_type vt); intros jt.
  apply convert_reset_val_fails in Hs as [(-> & _ & ->)|(-> & _ & ->)];
    destruct mn as [mn|], mx as [mx|], ev as [[|? ?]|]; simpl;
    repeat (match goal with
            | |- context [py_int ?s] => destruct (py_int s) eqn:?
            | |- context [py_float ?s] => destruct (py_float s) eqn:?
            end; simpl);
    reflexivity.
Qed.

Lemma build_prop_without_bad_default n r :
  (build_prop n (without_bad_default r)).2 = (build_prop n r).2.
Proof.
  unfold without_bad_default. destruct (reset_val r) as [s|] eqn:Hr; [|done].
  destruct (convert_reset_val (vartype r) s) as [e|v] eqn:Hs; [|done].
  by rewrite (build_prop_bad_default n r s e).
Qed.

(** A [bool] setting always gets its descriptor, without a warning. *)
Lemma build_prop_bool n r :
  vartype r = "bool" →
  build_prop n r =
    ([], inr ([("type", VStr "boolean"); ("description", VStr (description r))]
              ++ entry "default"
                   ((λ s, VBool (bool_decide (s = "on"))) <$> reset_val r))).
Proof.
  destruct r as [nm sd vt u mn mx ev rv]; simpl. intros ->.
  unfold build_prop; simpl. by destruct rv, ev as [[|??]|].
Qed.
(** With well-formed bounds a descriptor is returned, whatever the
    reset value is. *)
Lemma build_prop_total n r :
  bounds_ok r → ∃ w p, build_prop n r = (w, inr p).
Proof.
  unfold bounds_ok.
  run_build_prop r; intros Hok; eauto;
    repeat match goal with
      | H : py_int ?s = None |- _ =>
          destruct (Hok s) as [[? [=]] _]; [by auto|done|congruence]
      | H : py_float ?s = None |- _ =>
          destruct (Hok s) as [_ [? [=]]]; [by auto|done|congruence]
      end.
Qed.
(** Building a descriptor prints at most one warning: the one for a
    reset value that does not convert. *)
Lemma build_prop_warnings n r :
  (build_prop n r).1 =
    match reset_val r with
    | Some s =>
        match convert_reset_val (vartype r) s with
        | inl e => [Warn_convert s n e]
        | inr _ => []
        end
    | None => []
    end.
Proof. run_build_prop r; done. Qed.

(** The only exceptions are those of [int] and [float] on a bound of
    an [integer] or [real] record. *)
Lemma build_prop_raises n r e :
  (build_prop n r).2 = inl e →
  (vartype r = "integer" ∧
   ∃ s, (min_val r = Some s ∨ max_val r = Some s) ∧
        py_int s = None ∧ e = ValueError_int s) ∨
  (vartype r = "real" ∧
   ∃ s, (min_val r = Some s ∨ max_val r = Some s) ∧
        py_float s = None ∧ e = ValueError_float s).
Proof. run_build_prop r; intros [= <-]; eauto 10. Qed.

Lemma build_prop_returns_bounds_ok n r w p :
  build_prop n r = (w, inr p) → bounds_ok r.
Proof.
  intros Hp s Hs. split; intros Hty.
  - destruct (build_prop_returns_bounds n r w p Hp (or_introl Hty))
      as [Hlo Hhi].
    destruct Hs as [Hs|Hs]; [apply Hlo in Hs|apply Hhi in Hs];
      revert Hs; unfold numeric_bound; rewrite Hty; simpl;
      by destruct (py_int s); intros [? [=]]; eauto.
  - destruct (build_prop_returns_bounds n r w p Hp (or_intror Hty))
      as [Hlo Hhi].
    destruct Hs as [Hs|Hs]; [apply Hlo in Hs|apply Hhi in Hs];
      revert Hs; unfold numeric_bound; rewrite Hty; simpl;
      by destruct (py_float s); intros [? [=]]; eauto.
Qed.

Lemma json_type_other pg_type :
  pg_type ≠ "bool" → pg_type ≠ "integer" → pg_type ≠ "real" →
  json_type pg_type = "string".
Proof.
  intros. unfold json_type, type_mapping; simpl. by repeat case_decide.
Qed.

(** A record of any type but [bool], [integer] and [real] always gets
    its descriptor, of type [string], with its reset value as it is. *)
Lemma build_prop_other_types n r :
  vartype r ≠ "bool" → vartype r ≠ "integer" → vartype r ≠ "real" →
  build_prop n r =
    ([], inr ([("type", VStr "string"); ("description", VStr (description r))]
              ++ entry "default" (VStr <$> reset_val r)
              ++ entry "enum" (enum_value r))).
Proof.
  intros Hb Hi Hr. unfold build_prop, convert_reset_val, enum_value.
  rewrite (json_type_other _ Hb Hi Hr).
  generalize (description r). intros ds.
  destruct r as [nm sd vt u mn mx ev rv]; simpl in *.
  destruct rv as [rv|], mn as [mn|], mx as [mx|], ev as [[|? ?]|]; simpl;
    repeat case_decide; done.
Qed.
End build_prop_facts.

(** ** The loop over the names of a category *)

Section settings_loop_facts.
Context `{B : Builtins}.
Implicit Types (db : list (string * setting_row)) (l seen : list string).
Implicit Types (acc props : list (string * prop pyfloat)).

Lemma warn_then_returns {A} d (m : gen A) w a :
  (warn d ;; m) = (w, inr a) → ∃ w', m = (w', inr a) ∧ w = d :: w'.
Proof.
  destruct m as [w' r]. unfold warn, mbind, gen_bind. intros [= <- ->]. eauto.
Qed.

Lemma warn_then_outcome {A} d (m : gen A) : (warn d ;; m).2 = m.2.
Proof. by destruct m. Qed.

Lemma returned_then_outcome {A C} (m : gen A) (f : A → gen C) w a :
  m = (w, inr a) → (m ≫= f).2 = (f a).2.
Proof. intros ->. unfold mbind, gen_bind. by destruct (f a). Qed.

(** What holds of the descriptors already there and of every
    descriptor built holds of all descriptors at the end. *)
Lemma settings_loop_Forall (P : string → prop pyfloat → Prop)
    db l acc w props :
  settings_loop db l acc = (w, inr props) →
  Forall (uncurry P) acc →
  (∀ n r w' p, n ∈ l → dict_get n db = Some r →
               build_prop n r = (w', inr p) → P n p) →
  Forall (uncurry P) props.
Proof.
  revert acc w. induction l as [|x l IH]; intros acc w; simpl.
  - by intros [= <- <-].
  - intros Hrun Hacc Hnew. destruct (dict_get x db) as [r|] eqn:Hx.
    + apply bind_returns in Hrun as (w1 & p & w2 & Hp & Hrun & _).
      eapply IH; [done| |].
      * apply dict_set_Forall; [|done]. eapply Hnew; [left|done..].
      * intros n r' w' p' Hn. apply Hnew. by right.
    + apply warn_then_returns in Hrun as (w1 & Hrun & _).
      eapply IH; [done..|]. intros n r' w' p' Hn. apply Hnew. by right.
Qed.

(** Over names that are new and distinct, the loop appends the names
    it finds in the database, in the order of the list. *)
Lemma settings_loop_keys db l acc w props :
  NoDup l → (∀ x, x ∈ l → dict_get x acc = None) →
  settings_loop db l acc = (w, inr props) →
  props.*1 = acc.*1 ++ filter (λ x, is_Some (dict_get x db)) l.
Proof.
  revert acc w. induction l as [|x l IH]; intros acc w; simpl.
  - intros _ _ [= <- <-]. by rewrite app_nil_r.
  - intros [Hx Hl]%NoDup_cons Hnew Hrun.
    destruct (dict_get x db) as [r|] eqn:Hdb.
    + apply bind_returns in Hrun as (w1 & p & w2 & Hp & Hrun & _).
      apply IH in Hrun; [|done|].
      * rewrite Hrun, dict_set_keys, (Hnew x) by left.
        rewrite filter_cons_True by (by rewrite Hdb).
        by rewrite <- app_assoc.
      * intros y Hy. rewrite dict_get_set_ne by (by intros ->).
        apply Hnew. by right.
    + apply warn_then_returns in Hrun as (w' & Hrun & _).
      apply IH in Hrun; [|done|by intros y Hy; apply Hnew; right].
      rewrite Hrun, filter_cons_False; [done|]. rewrite Hdb. by intros [].
Qed.

Lemma settled_dict_set db acc x r w p y :
  dict_get x db = Some r → build_prop x r = (w, inr p) →
  settled db acc y → settled db (dict_set x p acc) y.
Proof.
  intros Hx Hp. unfold settled. destruct (decide (x = y)) as [<-|Hne].
  - rewrite Hx. intros _. exists w, p. by rewrite dict_get_set_eq.
  - by rewrite dict_get_set_ne.
Qed.

(** Running the loop on a name again changes nothing but the
    warnings: the outcome is that of the first occurrences. *)
Lemma settings_loop_nub db l seen acc :
  (∀ x, x ∈ seen → settled db acc x) →
  (settings_loop db l acc).2 = (settings_loop db (nub_acc seen l) acc).2.
Proof.
  revert seen acc. induction l as [|x l IH]; intros seen acc Hseen; [done|].
  cbn [settings_loop nub_acc]. case_decide as Hx.
  - pose proof (Hseen x Hx) as Hsx. unfold settled in Hsx.
    destruct (dict_get x db) as [r|].
    + destruct Hsx as (w & p & Hp & Hacc).
      rewrite (returned_then_outcome _ _ _ _ Hp), dict_set_same by done.
      by apply IH.
    + rewrite warn_then_outcome. by apply IH.
  - cbn [settings_loop]. destruct (dict_get x db) as [r|] eqn:Hdb.
    + destruct (build_prop x r) as [w [e|p]] eqn:Hp; [done|].
      rewrite !(returned_then_outcome _ _ w p) by done.
      apply IH. intros y [->|Hy]%elem_of_cons.
      * unfold settled. rewrite Hdb. exists w, p.
        by rewrite dict_get_set_eq.
      * eapply settled_dict_set; eauto.
    + rewrite !warn_then_outcome. apply IH.
      intros y [->|Hy]%elem_of_cons; [|by auto].
      unfold settled. by rewrite Hdb.
Qed.

Lemma elem_of_nub_acc seen l x : x ∈ nub_acc seen l ↔ x ∈ l ∧ x ∉ seen.
Proof.
  revert seen. induction l as [|y l IH]; intros seen; simpl.
  - rewrite elem_of_nil. tauto.
  - case_decide as Hy; rewrite ?elem_of_cons, IH, ?not_elem_of_cons.
    + split; [tauto|]. intros [[->|?] ?]; tauto.
    + destruct (decide (x = y)) as [->|]; tauto.
Qed.

Lemma NoDup_nub_acc seen l : NoDup (nub_acc seen l).
Proof.
  revert seen. induction l as [|y l IH]; intros seen; simpl.
  - constructor.
  - case_decide; [done|]. constructor; [|done].
    rewrite elem_of_nub_acc, not_elem_of_cons. tauto.
Qed.

Lemma nub_acc_sublist seen l : nub_acc seen l `sublist_of` l.
Proof.
  revert seen. induction l as [|y l IH]; intros seen; simpl; [done|].
  case_decide; [by apply sublist_cons|by apply sublist_skip].
Qed.
End settings_loop_facts.

(** ** Sorting *)

Section sorted_facts.
Implicit Types (l : list string).

Lemma sorted_Permutation l : sorted l ≡ₚ l.
Proof. apply merge_sort_Permutation. Qed.

Lemma elem_of_sorted l x : x ∈ sorted l ↔ x ∈ l.
Proof. by rewrite sorted_Permutation. Qed.

Lemma sorted_StronglySorted l : StronglySorted String.le (sorted l).
Proof. apply (StronglySorted_merge_sort _). Qed.

Lemma StronglySorted_sublist {A} (R : relation A) (l1 l2 : list A) :
  l1 `sublist_of` l2 → StronglySorted R l2 → StronglySorted R l1.
Proof.
  induction 1 as [|x l1 l2 Hsub IH|x l1 l2 Hsub IH]; [done|..];
    intros [Hl2 Hx]%StronglySorted_inv; [|by auto].
  constructor; [by auto|].
  rewrite Forall_forall in Hx |- *. intros y Hy. apply Hx.
  by eapply elem_of_sublist.
Qed.

(** Two sorted lists without repetition and with the same elements
    are the same list. *)
Lemma StronglySorted_le_unique l1 l2 :
  StronglySorted String.le l1 → StronglySorted String.le l2 →
  NoDup l1 → NoDup l2 → (∀ x, x ∈ l1 ↔ x ∈ l2) → l1 = l2.
Proof.
  intros H1 H2 Hd1 Hd2 Hel.
  apply (StronglySorted_unique String.le); [done..|].
  by apply NoDup_Permutation.
Qed.

(** Sorting a list without its repetitions gives the first
    occurrences of the sorted list. *)
Lemma sorted_deduplicated l l' :
  deduplicated l l' → sorted l' = nub_acc [] (sorted l).
Proof.
  intros [Hnd Hel]. apply StronglySorted_le_unique.
  - apply sorted_StronglySorted.
  - eapply StronglySorted_sublist;
      [apply nub_acc_sublist|apply sorted_StronglySorted].
  - by rewrite sorted_Permutation.
  - apply NoDup_nub_acc.
  - intros x. rewrite elem_of_sorted, elem_of_nub_acc, elem_of_sorted, Hel.
    rewrite elem_of_nil. tauto.
Qed.

Lemma str_lt_of_le s1 s2 : String.le s1 s2 → s1 ≠ s2 → str_lt s1 s2.
Proof.
  unfold String.le, str_lt, String.leb, String.ltb.
  destruct (String.compare s1 s2) eqn:Hc; try done.
  apply String.compare_eq_iff in Hc. by intros _ [].
Qed.

Lemma str_lt_le s1 s2 : str_lt s1 s2 → String.le s1 s2.
Proof.
  unfold String.le, str_lt, String.leb, String.ltb.
  by destruct (String.compare s1 s2).
Qed.

Lemma str_lt_irrefl s : ¬ str_lt s s.
Proof.
  unfold str_lt, String.ltb. intros H.
  destruct (String.compare s s) eqn:Hc; try done.
  pose proof (String.compare_antisym s s) as Ha. rewrite Hc in Ha. done.
Qed.

(** Sorted and without repetition is strictly sorted. *)
Lemma StronglySorted_strict l :
  StronglySorted String.le l → NoDup l → StronglySorted str_lt l.
Proof.
  induction 1 as [|x l Hl IH Hx]; [constructor|].
  intros [Hnx Hnd]%NoDup_cons. constructor; [by auto|].
  rewrite Forall_forall in Hx |- *. intros y Hy.
  apply str_lt_of_le; [by auto|]. by intros ->.
Qed.
End sorted_facts.

(** ** One category, and the loop over the categories *)

Section categories_facts.
Context `{B : Builtins}.
Implicit Types (db : list (string * setting_row)) (l : list string).
Implicit Types (items cats : list (string * list string)).
Implicit Types (cs : category_schema pyfloat).

Lemma build_category_returns db c l w cs :
  build_category db c l = (w, inr cs) →
  cs_type cs = "object" ∧
  cs_description cs = "Settings for the " +:+ c +:+ " category." ∧
  settings_loop db (sorted l) [] = (w, inr (cs_properties cs)).
Proof.
  unfold build_category.
  intros (w1 & props & w2 & Hloop & [= <- <-] & ->)%bind_returns.
  by rewrite app_nil_r.
Qed.

(** The names of a category's descriptors: the names of the list that
    the database has, sorted and once each. *)
Lemma build_category_keys db c l w cs :
  build_category db c l = (w, inr cs) →
  (cs_properties cs).*1 = filter (found db) (nub_acc [] (sorted l)).
Proof.
  intros (_ & _ & Hloop)%build_category_returns.
  pose proof (settings_loop_nub db (sorted l) [] []) as Hnub.
  rewrite Hloop in Hnub; simpl in Hnub.
  destruct (settings_loop db (nub_acc [] (sorted l)) []) as [w' r] eqn:Hl.
  simpl in Hnub. rewrite <- Hnub in Hl by (by intros ? ?%elem_of_nil).
  by apply settings_loop_keys in Hl; [|apply NoDup_nub_acc|].
Qed.

(** Every descriptor of a category is the one [build_prop] gives for
    a record of the database. *)
Lemma build_category_props db c l w cs n p :
  build_category db c l = (w, inr cs) →
  dict_get n (cs_properties cs) = Some p →
  n ∈ l ∧ ∃ r w', dict_get n db = Some r ∧ build_prop n r = (w', inr p).
Proof.
  intros (_ & _ & Hloop)%build_category_returns Hn.
  assert (Forall (uncurry (λ n p, n ∈ l ∧ ∃ r w',
            dict_get n db = Some r ∧ build_prop n r = (w', inr p)))
            (cs_properties cs)) as Hall.
  { eapply settings_loop_Forall; [exact Hloop|constructor|].
    intros n' r w' p' Hin ??. rewrite elem_of_sorted in Hin.
    split; [done|]. by exists r, w'. }
  rewrite Forall_forall in Hall.
  by apply (Hall (n, p)), dict_get_Some_elem.
Qed.

(** Removing repetitions from the list of a category does not change
    its sub-schema. *)
Lemma build_category_deduplicated db c l l' :
  deduplicated l l' → (build_category db c l).2 = (build_category db c l').2.
Proof.
  intros Hd. unfold build_category. apply bind_outcome; [|done].
  rewrite (sorted_deduplicated l l') by done.
  apply settings_loop_nub. by intros ? ?%elem_of_nil.
Qed.

Lemma settings_loop_ext db db' l acc :
  (∀ n, n ∈ l →
     option_Forall2 (λ r r', (build_prop n r).2 = (build_prop n r').2)
       (dict_get n db) (dict_get n db')) →
  (settings_loop db l acc).2 = (settings_loop db' l acc).2.
Proof.
  revert acc. induction l as [|x l IH]; intros acc Hext; [done|].
  cbn [settings_loop].
  destruct (Hext x) as [r r' Hr|]; [left|..].
  - apply bind_outcome; [done|]. intros p. apply IH.
    intros n Hn. apply Hext. by right.
  - rewrite !warn_then_outcome. apply IH. intros n Hn. apply Hext. by right.
Qed.

Lemma categories_loop_ext db db' items items' acc :
  Forall2 (λ it it', it.1 = it'.1 ∧
             (build_category db it.1 it.2).2
             = (build_category db' it'.1 it'.2).2) items items' →
  (categories_loop db items acc).2 = (categories_loop db' items' acc).2.
Proof.
  intros Hitems. revert acc.
  induction Hitems as [|[c l] [c' l'] items items' [Hc Hcat] _ IH];
    intros acc; [done|].
  simpl in Hc, Hcat; subst c'. cbn [categories_loop].
  apply bind_outcome; [done|]. intros cs. apply IH.
Qed.

Lemma categories_loop_Forall (P : string → category_schema pyfloat → Prop)
    db items acc w props :
  categories_loop db items acc = (w, inr props) →
  Forall (uncurry P) acc →
  (∀ c l w' cs, (c, l) ∈ items →
                build_category db c l = (w', inr cs) → P c cs) →
  Forall (uncurry P) props.
Proof.
  revert acc w. induction items as [|[c l] items IH]; intros acc w.
  - by intros [= <- <-].
  - cbn [categories_loop].
    intros (w1 & cs & w2 & Hcs & Hrun & _)%bind_returns Hacc Hnew.
    eapply IH; [done| |].
    + apply dict_set_Forall; [|done]. eapply Hnew; [left|done].
    + intros c' l' w' cs' Hin. apply Hnew. by right.
Qed.

(** Over distinct new names, the loop appends one sub-schema for each
    category, in the order of the categories. *)
Lemma categories_loop_items db items acc w props :
  NoDup items.*1 → (∀ c, c ∈ items.*1 → dict_get c acc = None) →
  categories_loop db items acc = (w, inr props) →
  ∃ css, props = acc ++ css ∧
    Forall2 (λ it ccs, ccs.1 = it.1 ∧
               ∃ w', build_category db it.1 it.2 = (w', inr ccs.2))
      items css.
Proof.
  revert acc w. induction items as [|[c l] items IH]; intros acc w.
  - intros _ _ [= <- <-]. exists []. by rewrite app_nil_r.
  - cbn [categories_loop]. csimpl. intros [Hc Hnd]%NoDup_cons Hnew.
    intros (w1 & cs & w2 & Hcs & Hrun & _)%bind_returns.
    apply IH in Hrun as (css & -> & Hcss); [|done|].
    + exists ((c, cs) :: css). split.
      * rewrite dict_set_new by (apply Hnew; left).
        by rewrite <- app_assoc.
      * constructor; [|done]. simpl. eauto.
    + intros c' Hc'. rewrite dict_get_set_ne by (by intros ->).
      apply Hnew. by right.
Qed.
End categories_facts.

(** ** The generated document *)

Section generate_facts.
Context `{B : Builtins}.
Implicit Types (db : list (string * setting_row)) (l : list string).
Implicit Types (cats : list (string * list string)).
Implicit Types (cs : category_schema pyfloat) (doc : schema pyfloat).
Implicit Types (p : prop pyfloat).

Lemma dict_get_NoDup {V} (d : list (string * V)) k v :
  NoDup d.*1 → (k, v) ∈ d → dict_get k d = Some v.
Proof.
  induction d as [|[k' v'] d IH]; csimpl; [by intros _ ?%elem_of_nil|].
  intros [Hk Hd]%NoDup_cons [[= -> ->]|Hin]%elem_of_cons.
  - by case_decide.
  - case_decide as Heq; [|by auto]. subst k'. destruct Hk.
    apply list_elem_of_fmap. by exists (k, v).
Qed.

Lemma generate_returns db cats w doc :
  generate_schema_yaml db cats = (w, inr doc) →
  s_type doc = "object" ∧
  categories_loop db cats [] = (w, inr (s_properties doc)).
Proof.
  unfold generate_schema_yaml.
  intros (w1 & props & w2 & Hloop & [= <- <-] & ->)%bind_returns.
  by rewrite app_nil_r.
Qed.

(** Every sub-schema of the document is the one of a declared category. *)
Lemma generate_category db cats w doc c cs :
  generate_schema_yaml db cats = (w, inr doc) →
  dict_get c (s_properties doc) = Some cs →
  ∃ l w', (c, l) ∈ cats ∧ build_category db c l = (w', inr cs).
Proof.
  intros [_ Hloop]%generate_returns Hc.
  assert (Forall (uncurry (λ c cs, ∃ l w',
            (c, l) ∈ cats ∧ build_category db c l = (w', inr cs)))
            (s_properties doc)) as Hall.
  { eapply categories_loop_Forall; [exact Hloop|constructor|].
    intros c' l w' cs' ??. by exists l, w'. }
  rewrite Forall_forall in Hall.
  by apply (Hall (c, cs)), dict_get_Some_elem.
Qed.

(** Every descriptor of the document is the one [build_prop] gives
    for the record of its name. *)
Lemma generate_descriptor db cats w doc c cs n p :
  generate_schema_yaml db cats = (w, inr doc) →
  dict_get c (s_properties doc) = Some cs →
  dict_get n (cs_properties cs) = Some p →
  ∃ r w', dict_get n db = Some r ∧ build_prop n r = (w', inr p).
Proof.
  intros Hgen Hc Hn.
  destruct (generate_category _ _ _ _ _ _ Hgen Hc) as (l & w' & _ & Hcat).
  by destruct (build_category_props _ _ _ _ _ _ _ Hcat Hn) as [_ ?].
Qed.

Lemma emitted_build_prop db cats n r p :
  emitted db cats n r p → ∃ w, build_prop n r = (w, inr p).
Proof.
  intros (w & doc & c & cs & Hgen & Hc & Hn & Hr).
  destruct (generate_descriptor _ _ _ _ _ _ _ _ Hgen Hc Hn)
    as (r' & w' & Hr' & Hp).
  exists w'. congruence.
Qed.

(** A name of the list that the database has gets its descriptor, and
    what building it printed has been printed. *)
Lemma settings_loop_lookup db l acc w props n r :
  settings_loop db l acc = (w, inr props) →
  dict_get n db = Some r →
  n ∈ l ∨ (∃ w' p, build_prop n r = (w', inr p) ∧ dict_get n acc = Some p) →
  ∃ w' p, build_prop n r = (w', inr p) ∧ dict_get n props = Some p.
Proof.
  intros Hrun Hr. revert acc w Hrun.
  induction l as [|x l IH]; intros acc w; cbn [settings_loop].
  - intros [= <- <-] [?%elem_of_nil|?]; done.
  - destruct (dict_get x db) as [rx|] eqn:Hx.
    + intros (w1 & px & w2 & Hpx & Hrun & _)%bind_returns Hn.
      apply (IH _ _ Hrun).
      destruct (decide (n = x)) as [->|Hne].
      * right. exists w1, px. rewrite dict_get_set_eq.
        split; [congruence|done].
      * destruct Hn as [[?|?]%elem_of_cons|(w' & p & ? & ?)]; [done|by left|].
        right. exists w', p. by rewrite dict_get_set_ne.
    + intros (w1 & Hrun & _)%warn_then_returns Hn. apply (IH _ _ Hrun).
      destruct Hn as [[->|?]%elem_of_cons|?]; [congruence|by left|by right].
Qed.

Lemma settings_loop_warnings db l acc w props n r d :
  settings_loop db l acc = (w, inr props) →
  n ∈ l → dict_get n db = Some r → d ∈ (build_prop n r).1 → d ∈ w.
Proof.
  intros Hrun Hn Hr Hd. revert acc w Hrun.
  induction l as [|x l IH]; intros acc w; cbn [settings_loop];
    [by apply elem_of_nil in Hn|].
  destruct (dict_get x db) as [rx|] eqn:Hx.
  - intros (w1 & px & w2 & Hpx & Hrun & ->)%bind_returns.
    apply elem_of_app. apply elem_of_cons in Hn as [->|Hn].
    + left. replace rx with r in Hpx by congruence. by rewrite Hpx in Hd.
    + right. eauto.
  - intros (w1 & Hrun & ->)%warn_then_returns. right.
    apply elem_of_cons in Hn as [->|Hn]; [congruence|eauto].
Qed.

Lemma categories_loop_warnings db cats acc w props c l d :
  categories_loop db cats acc = (w, inr props) →
  (c, l) ∈ cats → d ∈ (build_category db c l).1 → d ∈ w.
Proof.
  intros Hrun Hin Hd. revert acc w Hrun.
  induction cats as [|[c' l'] cats IH]; intros acc w; cbn [categories_loop];
    [by apply elem_of_nil in Hin|].
  intros (w1 & cs & w2 & Hcs & Hrun & ->)%bind_returns.
  apply elem_of_app. apply elem_of_cons in Hin as [[= -> ->]|Hin].
  - left. by rewrite Hcs in Hd.
  - right. eauto.
Qed.

(** With distinct category names, a name listed in a category and
    present in the database has its descriptor in that category. *)
Lemma generate_lookup db cats w doc c l n r :
  NoDup cats.*1 →
  generate_schema_yaml db cats = (w, inr doc) →
  (c, l) ∈ cats → n ∈ l → dict_get n db = Some r →
  ∃ cs w' p,
    dict_get c (s_properties doc) = Some cs ∧
    dict_get n (cs_properties cs) = Some p ∧
    build_prop n r = (w', inr p) ∧ (∀ d, d ∈ w' → d ∈ w).
Proof.
  intros Hnd [_ Hloop]%generate_returns Hc Hn Hr.
  destruct (categories_loop_items db cats [] w _ Hnd
              (λ _ _, eq_refl) Hloop) as (css & Hcss & Hall).
  simpl in Hcss.
  assert (css.*1 = cats.*1) as Hkeys.
  { clear -Hall. induction Hall as [|?? ?? [? _]]; csimpl; congruence. }
  assert (∃ cs w', (c, cs) ∈ css
                   ∧ build_category db c l = (w', inr cs)) as (cs & wc & Hcs & Hcat).
  { clear -Hall Hc. induction Hall as [|[c1 l1] [c2 cs2] ?? [? [w' ?]] ? IH].
    - by apply elem_of_nil in Hc.
    - simpl in *. subst c2. apply elem_of_cons in Hc as [[= -> ->]|Hc].
      + exists cs2, w'. split; [left|done].
      + destruct (IH Hc) as (cs & w'' & ? & ?). exists cs, w''.
        split; [by right|done]. }
  destruct (build_category_returns _ _ _ _ _ Hcat) as (_ & _ & Hsl).
  destruct (settings_loop_lookup _ _ _ _ _ n r Hsl Hr) as (w' & p & Hp & Hget).
  { left. by rewrite elem_of_sorted. }
  exists cs, w', p. split_and!; [|done..|].
  - rewrite Hcss. apply dict_get_NoDup; [by rewrite Hkeys|done].
  - intros d Hd. eapply categories_loop_warnings; [exact Hloop|exact Hc|].
    rewrite Hcat. simpl.
    eapply settings_loop_warnings; [exact Hsl| |exact Hr|by rewrite Hp].
    by rewrite elem_of_sorted.
Qed.
Lemma settings_loop_total db l acc :
  (∀ n r, dict_get n db = Some r → bounds_ok r) →
  ∃ w props, settings_loop db l acc = (w, inr props).
Proof.
  intros Hok. revert acc.
  induction l as [|x l IH]; intros acc; cbn [settings_loop]; [by eexists _, _|].
  destruct (dict_get x db) as [r|] eqn:Hx.
  - destruct (build_prop_total x r (Hok _ _ Hx)) as (w1 & p & ->).
    destruct (IH (dict_set x p acc)) as (w2 & props & Hrun).
    exists (w1 ++ w2), props. unfold mbind, gen_bind. by rewrite Hrun.
  - destruct (IH acc) as (w2 & props & ->). by eexists _, _.
Qed.

Lemma build_category_total db c l :
  (∀ n r, dict_get n db = Some r → bounds_ok r) →
  ∃ w cs, build_category db c l = (w, inr cs).
Proof.
  intros Hok. unfold build_category.
  destruct (settings_loop_total db (sorted l) [] Hok) as (w & props & ->).
  by eexists _, _.
Qed.

Lemma categories_loop_total db cats acc :
  (∀ n r, dict_get n db = Some r → bounds_ok r) →
  ∃ w props, categories_loop db cats acc = (w, inr props).
Proof.
  intros Hok. revert acc.
  induction cats as [|[c l] cats IH]; intros acc; cbn [categories_loop];
    [by eexists _, _|].
  destruct (build_category_total db c l Hok) as (w1 & cs & ->).
  destruct (IH (dict_set c cs acc)) as (w2 & props & Hrun).
  exists (w1 ++ w2), props. unfold mbind, gen_bind. by rewrite Hrun.
Qed.

(** The generator returns a document as soon as the bounds of the
    records are well-formed. *)
Lemma generate_total db cats :
  (∀ n r, dict_get n db = Some r → bounds_ok r) →
  ∃ w doc, generate_schema_yaml db cats = (w, inr doc).
Proof.
  intros Hok. unfold generate_schema_yaml.
  destruct (categories_loop_total db cats [] Hok) as (w & props & ->).
  by eexists _, _.
Qed.

Lemma dict_get_fmap_values {V W} (f : V → W) (d : list (string * V)) k :
  dict_get k (prod_map id f <$> d) = f <$> dict_get k d.
Proof.
  induction d as [|[k' v] d IH]; csimpl; [done|]. by case_decide.
Qed.

(** Reset values that do not convert have no part in the outcome. *)
Lemma generate_without_bad_defaults db cats :
  (generate_schema_yaml db cats).2
  = (generate_schema_yaml (prod_map id without_bad_default <$> db) cats).2.
Proof.
  unfold generate_schema_yaml. apply bind_outcome; [|done].
  apply categories_loop_ext, Forall2_same_length_lookup_2; [done|].
  intros i [c l] [c' l'] H1 H2. simplify_eq. split; [done|].
  unfold build_category; simpl. apply bind_outcome; [|done].
  apply settings_loop_ext. intros n _. rewrite dict_get_fmap_values.
  destruct (dict_get n db) as [r|]; constructor.
  by rewrite build_prop_without_bad_default.
Qed.
End generate_facts.

(** * The claims about the schema generator *)

(** C10. Every property descriptor of a generated document belongs to a
    record of the settings mapping and has a [type] key and a
    [description] key, whatever optional keys it has: the type is the
    JSON type of the record's [vartype] and the description is the
    record's short description, with the unit when there is one.
    Conversely (the category names being distinct, as the keys of a
    dictionary are), every name listed in a category that the settings
    mapping has a record for has such a descriptor in that category. *)
Theorem descriptor_has_type_and_description `{B : Builtins} db cats w doc :
  generate_schema_yaml db cats = (w, inr doc) →
  (∀ c cs n (p : prop pyfloat),
     dict_get c (s_properties doc) = Some cs →
     dict_get n (cs_properties cs) = Some p →
     ∃ r, dict_get n db = Some r ∧
          dict_get "type" p = Some (VStr (json_type (vartype r))) ∧
          dict_get "description" p = Some (VStr (description r))) ∧
  (NoDup cats.*1 →
   ∀ c l n r, (c, l) ∈ cats → n ∈ l → dict_get n db = Some r →
     ∃ cs p, dict_get c (s_properties doc) = Some cs ∧
             dict_get n (cs_properties cs) = Some p ∧
             dict_get "type" p = Some (VStr (json_type (vartype r))) ∧
             dict_get "description" p = Some (VStr (description r))).
Proof.
  intros Hgen. split.
  - intros c cs n p Hc Hn.
    destruct (generate_descriptor _ _ _ _ _ _ _ _ Hgen Hc Hn)
      as (r & w' & Hr & Hp).
    exists r. split; [done|].
    by destruct (build_prop_lookup _ _ _ _ Hp) as (? & ? & _).
  - intros Hnd c l n r Hc Hn Hr.
    destruct (generate_lookup _ _ _ _ _ _ _ _ Hnd Hgen Hc Hn Hr)
      as (cs & w' & p & Hcs & Hp & Hbp & _).
    exists cs, p. split_and!; [done..| |];
      by destruct (build_prop_lookup _ _ _ _ Hbp) as (? & ? & _).
Qed.

Lemma descriptor_has_type_and_description_witness :
  let p : prop Q :=
    [("type", VStr "integer");
     ("description",
      VStr "Sets the maximum memory to be used for query workspaces. (Unit: kB)");
     ("minimum", VInt 64); ("maximum", VInt 2147483647)] in
  ∃ r, dict_get "work_mem" Examples.store = Some r ∧
       dict_get "type" p = Some (VStr (json_type (vartype r))) ∧
       dict_get "description" p = Some (VStr (description r)).
Proof.
  eapply (proj1 (descriptor_has_type_and_description (B:=Decimal.builtins)
                   Examples.store Examples.categories _ _ ?[Hgen])
            "memory" _ "work_mem").
  [Hgen]: vm_compute; reflexivity.
  all: vm_compute; reflexivity.
Defined.

(** C6. For a [bool] record with a reset value, the descriptor is built
    without warning or failure, and its [default] is the boolean that
    tells whether the reset value is the literal [on]: true for [on],
    false for every other literal. *)
Theorem bool_default_is_on `{B : Builtins} db cats n r (p : prop pyfloat) s :
  emitted db cats n r p → vartype r = "bool" → reset_val r = Some s →
  build_prop n r = ([], inr p) ∧
  dict_get "default" p = Some (VBool (bool_decide (s = "on"))) ∧
  (dict_get "default" p = Some (VBool true) ↔ s = "on") ∧
  (dict_get "default" p = Some (VBool false) ↔ s ≠ "on").
Proof.
  intros [w Hp]%emitted_build_prop Hty Hs.
  pose proof (build_prop_bool n r Hty) as Hb. rewrite Hs in Hb; simpl in Hb.
  rewrite Hb in Hp. injection Hp as <- <-. split; [done|]. simpl.
  split; [done|]. case_bool_decide; split; split; congruence.
Qed.

Lemma bool_default_is_on_witness :
  let p : prop Q :=
    [("type", VStr "boolean");
     ("description", VStr "Starts the autovacuum subprocess.");
     ("default", VBool true)] in
  build_prop (B:=Decimal.builtins) "autovacuum" Examples.autovacuum
  = ([], inr p) ∧
  dict_get "default" p = Some (VBool (bool_decide ("on" = "on"))) ∧
  (dict_get "default" p = Some (VBool true) ↔ "on" = "on") ∧
  (dict_get "default" p = Some (VBool false) ↔ "on" ≠ "on").
Proof.
  apply (bool_default_is_on (B:=Decimal.builtins)
           Examples.store Examples.categories);
    [|reflexivity|reflexivity].
  eexists _, _, "maintenance", _. split_and!; vm_compute; reflexivity.
Defined.

(** C7. A descriptor has a [minimum] (a [maximum]) only when the record
    is of type [integer] or [real]: then the key is there exactly when
    the record has a minimum (a maximum), each bound on its own, and
    its value is the integer read by [int] for an [integer] record and
    the float read by [float] for a [real] record.  A descriptor of any
    other type, such as [string], [bool] or [enum], has neither key. *)
Theorem bounds_only_on_numeric_types `{B : Builtins}
    db cats n r (p : prop pyfloat) :
  emitted db cats n r p →
  (∀ v, dict_get "minimum" p = Some v →
     (vartype r = "integer" ∧
      ∃ s z, min_val r = Some s ∧ py_int s = Some z ∧ v = VInt z) ∨
     (vartype r = "real" ∧
      ∃ s f, min_val r = Some s ∧ py_float s = Some f ∧ v = VFloat f)) ∧
  (∀ v, dict_get "maximum" p = Some v →
     (vartype r = "integer" ∧
      ∃ s z, max_val r = Some s ∧ py_int s = Some z ∧ v = VInt z) ∨
     (vartype r = "real" ∧
      ∃ s f, max_val r = Some s ∧ py_float s = Some f ∧ v = VFloat f)) ∧
  (vartype r = "integer" ∨ vartype r = "real" →
     (is_Some (dict_get "minimum" p) ↔ is_Some (min_val r)) ∧
     (is_Some (dict_get "maximum" p) ↔ is_Some (max_val r))) ∧
  (vartype r ≠ "integer" → vartype r ≠ "real" →
     dict_get "minimum" p = None ∧ dict_get "maximum" p = None).
Proof.
  intros [w Hp]%emitted_build_prop.
  destruct (build_prop_lookup _ _ _ _ Hp) as (_ & _ & _ & Hmin & Hmax & _).
  rewrite Hmin, Hmax.
  assert (∀ o v, numeric_bound (vartype r) o = Some v →
            (vartype r = "integer" ∧
             ∃ s z, o = Some s ∧ py_int s = Some z ∧ v = VInt z) ∨
            (vartype r = "real" ∧
             ∃ s f, o = Some s ∧ py_float s = Some f ∧ v = VFloat f)) as Hnb.
  { intros [s|] v; unfold numeric_bound; simpl; [|done].
    repeat case_decide; [|by destruct (py_float s) eqn:?; intros [= <-];
                             right; eauto 6|done].
    destruct (py_int s) eqn:?; intros [= <-]. left; eauto 6. }
  split_and!; [by apply Hnb..| |].
  - intros Hty.
    destruct (build_prop_returns_bounds _ _ _ _ Hp Hty) as [Hlo Hhi].
    split; split.
    + intros [v Hv]. by destruct (Hnb _ _ Hv) as [[_ (s & ? & -> & _)]|[_ (s & ? & -> & _)]].
    + intros [s Hs]. rewrite Hs. by apply Hlo.
    + intros [v Hv]. by destruct (Hnb _ _ Hv) as [[_ (s & ? & -> & _)]|[_ (s & ? & -> & _)]].
    + intros [s Hs]. rewrite Hs. by apply Hhi.
  - intros Hi Hf. unfold numeric_bound.
    destruct (min_val r), (max_val r); simpl; by repeat case_decide.
Qed.

Lemma bounds_only_on_numeric_types_witness :
  let p : prop Q :=
    [("type", VStr "number");
     ("description",
      VStr "Time spent flushing dirty buffers during checkpoint, as fraction of checkpoint interval.");
     ("default", VFloat 0.9%Q); ("minimum", VFloat 0%Q)] in
  dict_get "minimum" p = Some (VFloat 0%Q) ∧ dict_get "maximum" p = None.
Proof.
  intros p.
  destruct (bounds_only_on_numeric_types (B:=Decimal.builtins)
              Examples.store Examples.categories
              "checkpoint_completion_target"
              Examples.checkpoint_completion_target p) as (_ & _ & _ & _).
  - eexists _, _, "maintenance", _. split_and!; vm_compute; reflexivity.
  - split; reflexivity.
Defined.

(** C8. A descriptor has an [enum] key only when the record is of type
    [enum] and its [enumvals] is a non-empty sequence, and the value is
    then that very sequence, in its order. *)
Theorem enum_only_for_enum_type `{B : Builtins}
    db cats n r (p : prop pyfloat) :
  emitted db cats n r p →
  ∀ v, dict_get "enum" p = Some v ↔
       vartype r = "enum" ∧ ∃ l, enumvals r = Some l ∧ l ≠ [] ∧ v = VList l.
Proof.
  intros [w Hp]%emitted_build_prop v.
  destruct (build_prop_lookup _ _ _ _ Hp) as (_ & _ & _ & _ & _ & ->).
  unfold enum_value. case_decide as Hty.
  - destruct (enumvals r) as [[|x l]|].
    + split; [done|]. by intros [_ (l' & [= <-] & Hne & _)].
    + split.
      * intros [= <-]. split; [done|]. by exists (x :: l).
      * by intros [_ (l' & [= <-] & _ & ->)].
    + split; [done|]. by intros [_ (l' & [=] & _)].
  - split; [done|]. by intros [? _].
Qed.

Lemma enum_only_for_enum_type_witness :
  let p : prop Q :=
    [("type", VStr "string");
     ("description", VStr "Sets the message levels that are logged.");
     ("default", VStr "warning");
     ("enum", VList ["debug5"; "debug1"; "info"; "warning"])] in
  dict_get "enum" p = Some (VList ["debug5"; "debug1"; "info"; "warning"]) ↔
  vartype Scenario.log_min_messages = "enum" ∧
  ∃ l, enumvals Scenario.log_min_messages = Some l ∧ l ≠ [] ∧
       VList (F:=Q) ["debug5"; "debug1"; "info"; "warning"] = VList l.
Proof.
  apply (enum_only_for_enum_type (B:=Decimal.builtins)
           Scenario.store Scenario.categories "log_min_messages").
  eexists _, _, "logging", _. split_and!; vm_compute; reflexivity.
Defined.

(** C4. A reset value that cannot be converted is tolerated.  For a
    record whose reset value does not convert, building the descriptor
    prints one warning and otherwise does what it does for the record
    without a reset value, so the descriptor has no [default].  The
    outcome of the whole generation is the one for the store without
    the reset values that do not convert, and a document is generated
    whenever the bounds of the records are well-formed.  In a generated
    document the warning has been printed and the descriptor of the
    record is there, without [default]. *)
Theorem bad_default_is_tolerated `{B : Builtins} db cats n r s e :
  reset_val r = Some s → convert_reset_val (vartype r) s = inl e →
  build_prop n r
  = (Warn_convert s n e :: (build_prop n (without_reset_val r)).1,
     (build_prop n (without_reset_val r)).2) ∧
  (∀ w p, build_prop n r = (w, inr p) → dict_get "default" p = None) ∧
  (generate_schema_yaml db cats).2
  = (generate_schema_yaml (prod_map id without_bad_default <$> db) cats).2 ∧
  ((∀ n' r', dict_get n' db = Some r' → bounds_ok r') →
   ∃ w doc, generate_schema_yaml db cats = (w, inr doc)) ∧
  (∀ w doc c l,
     NoDup cats.*1 → generate_schema_yaml db cats = (w, inr doc) →
     (c, l) ∈ cats → n ∈ l → dict_get n db = Some r →
     Warn_convert s n e ∈ w ∧
     ∃ cs p, dict_get c (s_properties doc) = Some cs ∧
             dict_get n (cs_properties cs) = Some p ∧
             dict_get "default" p = None).
Proof.
  intros Hr Hs.
  assert (∀ w p, build_prop n r = (w, inr p) → dict_get "default" p = None)
    as Hnone.
  { intros w p Hp.
    destruct (build_prop_lookup _ _ _ _ Hp) as (_ & _ & -> & _).
    unfold default_value. rewrite Hr; simpl. by rewrite Hs. }
  split_and!; [by apply build_prop_bad_default|done
              |apply generate_without_bad_defaults|apply generate_total|].
  intros w doc c l Hnd Hgen Hc Hn Hdb.
  destruct (generate_lookup _ _ _ _ _ _ _ _ Hnd Hgen Hc Hn Hdb)
    as (cs & w' & p & Hcs & Hp & Hbp & Hw).
  split.
  - apply Hw. rewrite (build_prop_bad_default n r s e Hr Hs) in Hbp.
    injection Hbp as <- _. left.
  - exists cs, p. split_and!; [done..|]. by eapply Hnone.
Qed.

Lemma bad_default_is_tolerated_witness :
  build_prop (B:=Decimal.builtins) "work_mem" Examples.work_mem
  = ([Warn_convert "4MB" "work_mem" (ValueError_int "4MB")],
     inr [("type", VStr "integer");
          ("description",
           VStr "Sets the maximum memory to be used for query workspaces. (Unit: kB)");
          ("minimum", VInt 64); ("maximum", VInt 2147483647)]).
Proof.
  destruct (bad_default_is_tolerated (B:=Decimal.builtins)
              Examples.store Examples.categories "work_mem"
              Examples.work_mem "4MB" (ValueError_int "4MB")) as [-> _];
    reflexivity.
Defined.

(** C5. The generated document lists the categories in the order of
    the category map, and under each category the names of its list
    that the settings mapping has, once each and in strictly increasing
    lexicographic order, whatever the order of the list. *)
Theorem categories_in_order_names_sorted `{B : Builtins} db cats w doc :
  NoDup cats.*1 → generate_schema_yaml db cats = (w, inr doc) →
  (s_properties doc).*1 = cats.*1 ∧
  ∀ c cs, dict_get c (s_properties doc) = Some cs →
    ∃ l, (c, l) ∈ cats ∧
         StronglySorted str_lt (cs_properties cs).*1 ∧
         ∀ n, n ∈ (cs_properties cs).*1 ↔ n ∈ l ∧ found db n.
Proof.
  intros Hnd Hgen. split.
  - destruct (generate_returns _ _ _ _ Hgen) as [_ Hloop].
    destruct (categories_loop_items db cats [] w _ Hnd
                (λ _ _, eq_refl) Hloop) as (css & -> & Hall).
    simpl. clear -Hall. induction Hall as [|?? ?? [? _]]; csimpl; congruence.
  - intros c cs Hc.
    destruct (generate_category _ _ _ _ _ _ Hgen Hc) as (l & w' & Hin & Hcat).
    exists l. split; [done|].
    rewrite (build_category_keys _ _ _ _ _ Hcat). split.
    + apply StronglySorted_strict.
      * eapply StronglySorted_sublist; [apply sublist_filter|].
        eapply StronglySorted_sublist; [apply nub_acc_sublist|].
        apply sorted_StronglySorted.
      * apply NoDup_filter, NoDup_nub_acc.
    + intros n. rewrite list_elem_of_filter, elem_of_nub_acc, elem_of_sorted.
      rewrite elem_of_nil. tauto.
Qed.

Lemma categories_in_order_names_sorted_witness :
  ∃ doc : schema Q,
    (generate_schema_yaml (B:=Decimal.builtins)
       Examples.store Examples.categories).2 = inr doc ∧
    (s_properties doc).*1 = ["memory"; "logging"; "maintenance"] ∧
    ∃ cs, dict_get "maintenance" (s_properties doc) = Some cs ∧
          (cs_properties cs).*1
          = ["autovacuum"; "checkpoint_completion_target"; "fsync"] ∧
          StronglySorted str_lt (cs_properties cs).*1.
Proof.
  destruct (generate_schema_yaml (B:=Decimal.builtins)
              Examples.store Examples.categories) as [w [e|doc]] eqn:Hgen;
    [by vm_compute in Hgen|].
  destruct (categories_in_order_names_sorted (B:=Decimal.builtins)
              Examples.store Examples.categories w doc) as [Hcats Hnames];
    [by apply (bool_decide_unpack _)|done|].
  exists doc. split; [done|]. split; [done|].
  vm_compute in Hgen. injection Hgen as _ <-.
  eexists. split; [reflexivity|]. split; [reflexivity|].
  by destruct (Hnames "maintenance" _ eq_refl) as (_ & _ & ? & _).
Defined.

(** * The driver *)

Section driver_facts.
Context `{B : Builtins}.
Implicit Types (db : list (string * setting_row)).
Implicit Types (cats : list (string * list string)).

Lemma sorted_nil l : sorted l = [] ↔ l = [].
Proof.
  split; [|by intros ->].
  intros Hl. apply Permutation_nil_r. by rewrite <- sorted_Permutation, Hl.
Qed.

(** Both difference lists are empty exactly when the two name sets are
    the same set. *)
Lemma in_sync_iff db cats :
  in_yaml_not_in_db db cats = [] ∧ in_db_not_in_yaml db cats = [] ↔
  yaml_settings cats = db_settings db.
Proof.
  unfold in_yaml_not_in_db, in_db_not_in_yaml.
  rewrite !sorted_nil, !elements_empty_iff.
  generalize (yaml_settings cats) (db_settings db). intros X Y. split.
  - intros [HXY HYX]. apply set_eq. intros x.
    split; intros Hx; apply dec_stable; intros Hn.
    + apply (not_elem_of_empty (C:=gset string) x). rewrite <- HXY.
      by apply elem_of_difference.
    + apply (not_elem_of_empty (C:=gset string) x). rewrite <- HYX.
      by apply elem_of_difference.
  - intros ->. split; apply set_equiv; intros x;
      rewrite elem_of_difference, elem_of_empty; tauto.
Qed.

Lemma elem_of_yaml_settings cats x :
  x ∈ yaml_settings cats ↔ ∃ c l, (c, l) ∈ cats ∧ x ∈ l.
Proof.
  unfold yaml_settings. rewrite elem_of_union_list. split.
  - intros (X & HX & Hx). apply list_elem_of_fmap in HX as (l & -> & Hl).
    apply list_elem_of_fmap in Hl as ([c l'] & -> & Hin).
    exists c, l'. split; [done|]. by apply elem_of_list_to_set in Hx.
  - intros (c & l & Hin & Hx). exists (list_to_set l). split.
    + apply list_elem_of_fmap. exists l. split; [done|].
      apply list_elem_of_fmap. by exists (c, l).
    + by apply elem_of_list_to_set.
Qed.

Lemma elem_of_db_settings db x : x ∈ db_settings db ↔ found db x.
Proof.
  unfold db_settings, found. rewrite elem_of_list_to_set.
  destruct (dict_get x db) as [r|] eqn:Hx.
  - split; [by eauto|]. intros _. apply dict_get_Some_elem in Hx.
    apply list_elem_of_fmap. by exists (x, r).
  - split; [|by intros [? [=]]]. intros Hin. by apply dict_get_None in Hx.
Qed.

(** The run when the name sets agree: the generator is called, and its
    document is written when there is one and the path is writable. *)
Lemma main_in_sync args db cats writable :
  yaml_settings cats = db_settings db →
  let out :=
    [Msg_comparing; Msg_connecting (host args) (port args);
     Msg_found_db (size (db_settings db));
     Msg_loading (yaml_file_path args);
     Msg_found_yaml (size (yaml_settings cats)) (length cats);
     Msg_results; Msg_in_sync; Msg_generating (output_schema_file args)] in
  main args db cats writable =
    match generate_schema_yaml db cats with
    | (w, inr schema_content) =>
        if writable then
          {| stdout := out ++ [Msg_generated (output_schema_file args)];
             stderr := Err_warning <$> w;
             output_file := Some schema_content;
             exit_status := 0 |}
        else
          {| stdout := out;
             stderr := (Err_warning <$> w) ++ [Err_write (output_schema_file args)];
             output_file := None;
             exit_status := 1 |}
    | (w, inl e) =>
        {| stdout := out;
           stderr := (Err_warning <$> w) ++ [Err_traceback e];
           output_file := None;
           exit_status := 1 |}
    end.
Proof.
  intros [Hm He]%in_sync_iff. unfold main. by rewrite Hm, He.
Qed.

(** The run when the name sets differ: the report, and nothing else. *)
Lemma main_mismatch args db cats writable :
  yaml_settings cats ≠ db_settings db →
  ∃ report,
    main args db cats writable =
      {| stdout :=
           [Msg_comparing; Msg_connecting (host args) (port args);
            Msg_found_db (size (db_settings db));
            Msg_loading (yaml_file_path args);
            Msg_found_yaml (size (yaml_settings cats)) (length cats);
            Msg_results] ++ report;
         stderr := [];
         output_file := None;
         exit_status := 1 |} ∧
    report ≠ [] ∧
    ∀ m, m ∈ report →
         m = Msg_yaml_not_db ∨ m = Msg_db_not_yaml ∨
         (∃ x, m = Msg_item x ∧
               (x ∈ yaml_settings cats ∧ x ∉ db_settings db ∨
                x ∈ db_settings db ∧ x ∉ yaml_settings cats)).
Proof.
  intros Hne. unfold main.
  assert (∀ x, x ∈ in_yaml_not_in_db db cats →
               x ∈ yaml_settings cats ∧ x ∉ db_settings db) as Hmiss.
  { intros x. unfold in_yaml_not_in_db.
    by rewrite elem_of_sorted, elem_of_elements, elem_of_difference. }
  assert (∀ x, x ∈ in_db_not_in_yaml db cats →
               x ∈ db_settings db ∧ x ∉ yaml_settings cats) as Hextra.
  { intros x. unfold in_db_not_in_yaml.
    by rewrite elem_of_sorted, elem_of_elements, elem_of_difference. }
  destruct (in_yaml_not_in_db db cats) as [|x1 l1] eqn:Hm;
    destruct (in_db_not_in_yaml db cats) as [|x2 l2] eqn:He.
  - destruct Hne. by apply in_sync_iff.
  - eexists. split; [reflexivity|]. cbv beta iota. split; [done|].
    intros m. rewrite elem_of_app, elem_of_nil, elem_of_cons, list_elem_of_fmap.
    intros [[]|[->|(x & -> & Hx)]]; [by auto|].
    right; right. exists x. split; [done|]. right. by apply Hextra.
  - eexists. split; [reflexivity|]. cbv beta iota. split; [done|].
    intros m. rewrite elem_of_app, elem_of_nil, elem_of_cons, list_elem_of_fmap.
    intros [[->|(x & -> & Hx)]|[]]; [by auto|].
    right; right. exists x. split; [done|]. left. by apply Hmiss.
  - eexists. split; [reflexivity|]. cbv beta iota. split; [done|].
    intros m. rewrite elem_of_app, !elem_of_cons, !list_elem_of_fmap.
    intros [[->|(x & -> & Hx)]|[->|(x & -> & Hx)]]; [by auto| |by auto|].
    + right; right. exists x. split; [done|]. left. by apply Hmiss.
    + right; right. exists x. split; [done|]. right. by apply Hextra.
Qed.
End driver_facts.

(** * The claims about the driver *)

(** C2. The generator is called (the line announcing it is printed)
    exactly when the names of the category map, taken together, are the
    keys of the settings mapping.  When they are, what the generator
    printed goes to the error stream, its document is written when it
    returned one and the output path is writable, and the status is 0
    exactly when the document has been written.  When they are not,
    nothing is written, nothing comes from the generator, and the
    status is 1. *)
Theorem generation_iff_in_sync `{B : Builtins} args db cats writable :
  let result := main args db cats writable in
  (Msg_generating (output_schema_file args) ∈ stdout result ↔
   yaml_settings cats = db_settings db) ∧
  (yaml_settings cats = db_settings db →
   (∃ rest, stderr result
            = (Err_warning <$> (generate_schema_yaml db cats).1) ++ rest) ∧
   output_file result
   = match (generate_schema_yaml db cats).2 with
     | inr doc => if writable then Some doc else None
     | inl _ => None
     end ∧
   (exit_status result = 0%Z ↔ is_Some (output_file result)) ∧
   (exit_status result = 0%Z ∨ exit_status result = 1%Z)) ∧
  (yaml_settings cats ≠ db_settings db →
   output_file result = None ∧ exit_status result = 1%Z ∧
   stderr result = []).
Proof.
  intros result. subst result.
  destruct (decide (yaml_settings cats = db_settings db)) as [Heq|Hne].
  - rewrite (main_in_sync args db cats writable Heq).
    destruct (generate_schema_yaml db cats) as [w [e|doc]]; [|destruct writable];
      simpl; (split_and!; [|intros _|done]).
    all: try (split; [done|intros _]).
    all: try (rewrite !elem_of_cons; tauto).
    all: try (rewrite elem_of_app, !elem_of_cons; tauto).
    all: split_and!; eauto; try (by exists []; rewrite app_nil_r).
    all: try (split; [done|by intros [? [=]]]).
  - destruct (main_mismatch args db cats writable Hne)
      as (report & -> & _ & Hrep). cbn [stdout stderr output_file exit_status].
    split_and!; [|done|done]. split; [|done].
    rewrite elem_of_app, !elem_of_cons, elem_of_nil.
    intros [Hin|Hin]; [by repeat destruct Hin as [Hin|Hin]|].
    by destruct (Hrep _ Hin) as [?|[?|(x & ? & _)]].
Qed.

Lemma generation_iff_in_sync_witness :
  Msg_generating "source/postgresql.conf.yaml"
    ∈ stdout (main (B:=Decimal.builtins) Scenario.args
                Scenario.store Scenario.categories true) ∧
  output_file (main (B:=Decimal.builtins) Scenario.args
                 Scenario.store (("jit", ["jit"]) :: Scenario.categories)
                 true) = None.
Proof.
  split.
  - apply (generation_iff_in_sync (B:=Decimal.builtins) Scenario.args
             Scenario.store Scenario.categories true).
    by vm_compute.
  - apply (generation_iff_in_sync (B:=Decimal.builtins) Scenario.args
             Scenario.store (("jit", ["jit"]) :: Scenario.categories) true).
    by vm_compute.
Defined.

(** C9. Names repeated in the list of a category do no harm.  Let
    [cats'] be [cats] with the repetitions removed from every list.
    Both give the same set of names, hence the same difference lists;
    the generator has the same outcome, the same document or the same
    exception, on both (it may print a warning once per occurrence);
    in a generated document the names under a category are distinct,
    one descriptor each; the driver prints the same lines, writes
    the same document and ends with the same status; and (the category
    names being distinct, as the keys of a dictionary are) a name of a
    list that the store has a record for, repeated or not, has exactly
    one descriptor in its category, the one built from its record. *)
Theorem repeated_names_are_harmless `{B : Builtins}
    args db cats cats' writable :
  Forall2 (λ it it', it'.1 = it.1 ∧ deduplicated it.2 it'.2) cats cats' →
  yaml_settings cats' = yaml_settings cats ∧
  in_yaml_not_in_db db cats' = in_yaml_not_in_db db cats ∧
  in_db_not_in_yaml db cats' = in_db_not_in_yaml db cats ∧
  (generate_schema_yaml db cats).2 = (generate_schema_yaml db cats').2 ∧
  (∀ w doc c cs,
     generate_schema_yaml db cats = (w, inr doc) →
     dict_get c (s_properties doc) = Some cs →
     NoDup (cs_properties cs).*1) ∧
  stdout (main args db cats writable) = stdout (main args db cats' writable) ∧
  output_file (main args db cats writable)
  = output_file (main args db cats' writable) ∧
  exit_status (main args db cats writable)
  = exit_status (main args db cats' writable) ∧
  (∀ w doc c l n r,
     NoDup cats.*1 →
     generate_schema_yaml db cats = (w, inr doc) →
     (c, l) ∈ cats → n ∈ l → dict_get n db = Some r →
     ∃ cs p w',
       dict_get c (s_properties doc) = Some cs ∧
       build_prop n r = (w', inr p) ∧
       filter (λ kv, kv.1 = n) (cs_properties cs) = [(n, p)]).
Proof.
  intros Hdd.
  assert (yaml_settings cats' = yaml_settings cats) as Hyaml.
  { unfold yaml_settings. induction Hdd as [|[c l] [c' l'] ?? [_ [_ Hel]] _ IH];
      [done|].
    csimpl. rewrite IH. f_equal.
    apply set_eq. intros x. rewrite !elem_of_list_to_set. apply Hel. }
  assert ((generate_schema_yaml db cats).2 = (generate_schema_yaml db cats').2)
    as Hgen.
  { unfold generate_schema_yaml. apply bind_outcome; [|done].
    apply categories_loop_ext. eapply Forall2_impl; [exact Hdd|].
    intros [c l] [c' l'] [Hc Hd]; simpl in *; subst c'. split; [done|].
    by apply build_category_deduplicated. }
  assert (in_yaml_not_in_db db cats' = in_yaml_not_in_db db cats) as Hmiss
    by (unfold in_yaml_not_in_db; by rewrite Hyaml).
  assert (in_db_not_in_yaml db cats' = in_db_not_in_yaml db cats) as Hextra
    by (unfold in_db_not_in_yaml; by rewrite Hyaml).
  assert (stdout (main args db cats writable)
          = stdout (main args db cats' writable) ∧
          output_file (main args db cats writable)
          = output_file (main args db cats' writable) ∧
          exit_status (main args db cats writable)
          = exit_status (main args db cats' writable)) as (Hout & Hfile & Hst).
  { unfold main. rewrite Hmiss, Hextra, Hyaml, <- (Forall2_length _ _ _ Hdd).
    destruct (in_yaml_not_in_db db cats), (in_db_not_in_yaml db cats);
      try done.
    destruct (generate_schema_yaml db cats) as [w [e|doc]],
      (generate_schema_yaml db cats') as [w' [e'|doc']];
      simpl in Hgen; simplify_eq; by destruct writable. }
  assert (∀ w doc c cs,
            generate_schema_yaml db cats = (w, inr doc) →
            dict_get c (s_properties doc) = Some cs →
            NoDup (cs_properties cs).*1) as Hnames.
  { intros w doc c cs Hdoc Hc.
    destruct (generate_category _ _ _ _ _ _ Hdoc Hc) as (l & w' & _ & Hcat).
    rewrite (build_category_keys _ _ _ _ _ Hcat).
    apply NoDup_filter, NoDup_nub_acc. }
  split_and!; try done.
  intros w doc c l n r Hnd Hdoc Hc Hn Hr.
  destruct (generate_lookup _ _ _ _ _ _ _ _ Hnd Hdoc Hc Hn Hr)
    as (cs & w' & p & Hcs & Hp & Hbp & _).
  exists cs, p, w'. split_and!; [done..|].
  apply filter_key_NoDup; [by eapply Hnames|done].
Qed.

Lemma repeated_names_are_harmless_witness :
  (generate_schema_yaml (B:=Decimal.builtins)
     Examples.store Examples.categories_repeated).2
  = (generate_schema_yaml (B:=Decimal.builtins)
       Examples.store Examples.categories).2 ∧
  ∃ (doc : schema Q) cs p,
    (generate_schema_yaml (B:=Decimal.builtins)
       Examples.store Examples.categories_repeated).2 = inr doc ∧
    dict_get "memory" (s_properties doc) = Some cs ∧
    filter (λ kv, kv.1 = "work_mem") (cs_properties cs) = [("work_mem", p)].
Proof.
  destruct (repeated_names_are_harmless (B:=Decimal.builtins) Scenario.args
              Examples.store Examples.categories_repeated Examples.categories
              true) as (_ & _ & _ & Hsame & _ & _ & _ & _ & Hone).
  { repeat (constructor;
              [split; [reflexivity|split;
                 [by apply (bool_decide_unpack _)
                 |intros x; simpl; rewrite !elem_of_cons, !elem_of_nil; tauto]]|]).
    constructor. }
  split; [exact Hsame|].
  destruct (generate_schema_yaml (B:=Decimal.builtins)
              Examples.store Examples.categories_repeated)
    as [w [e|doc]] eqn:Hgen; [by vm_compute in Hgen|].
  destruct (Hone w doc "memory" ["work_mem"; "shared_buffers"; "work_mem"]
              "work_mem" Examples.work_mem)
    as (cs & p & _ & Hcs & _ & Hfilter);
    [by apply (bool_decide_unpack _)|done|left|left|done|].
  by exists doc, cs, p.
Defined.

(** C1. A malformed bound is not treated as a malformed default.  On a
    store whose [integer] setting [max_connections] has the minimum
    [one], and categories in agreement with it, the generator prints no
    warning and leaves through the [ValueError] of [int]: no document
    is generated, also not the descriptor of the well-formed
    [shared_buffers], and the driver ends with the traceback, status 1
    and no output file. *)
Theorem malformed_bound_aborts :
  generate_schema_yaml (B:=Decimal.builtins)
    Examples.store_bad_bound Examples.categories_bad_bound
  = ([], inl (ValueError_int "one")) ∧
  main (B:=Decimal.builtins) Scenario.args
    Examples.store_bad_bound Examples.categories_bad_bound true
  = {| stdout :=
         [Msg_comparing; Msg_connecting "localhost" "5432"; Msg_found_db 2;
          Msg_loading "source/parameters.yaml"; Msg_found_yaml 2 2;
          Msg_results; Msg_in_sync;
          Msg_generating "source/postgresql.conf.yaml"];
       stderr := [Err_traceback (ValueError_int "one")];
       output_file := None;
       exit_status := 1 |}.
Proof. split; by vm_compute. Qed.

(** * The category loader *)

Section loader_facts.
Implicit Types (d : list (pyobj * pyobj)).

Lemma existsb_find {A} (f : A → bool) (l : list A) :
  existsb f l = bool_decide (is_Some (find f l)).
Proof.
  induction l as [|x l IH]; simpl; [done|].
  by destruct (f x).
Qed.

(** On a document whose top level is a mapping the loader returns the
    mapping under [categories], or prints its diagnostic and exits with
    status 1 when the key is absent or its value is not a mapping. *)
Lemma get_yaml_categories_mapping d :
  get_yaml_categories (Loaded (ODict d)) =
    match snd <$> find (λ kv, is_categories kv.1) d with
    | Some (ODict categories) => Returned categories
    | _ => Exited Err_categories 1
    end.
Proof.
  unfold get_yaml_categories, contains_categories, get_categories.
  rewrite existsb_find.
  destruct (find _ d) as [[k v]|]; simpl; [|done]. by destruct v.
Qed.

(** What the loader returns is the mapping found under the key
    [categories] of a top-level mapping. *)
Lemma get_yaml_categories_returned f categories :
  get_yaml_categories f = Returned categories →
  ∃ d k, f = Loaded (ODict d) ∧ is_categories k = true ∧
         (k, ODict categories) ∈ d.
Proof.
  destruct f as [| |data]; [done..|]. destruct data as [| | | | | |d];
    try done.
  - unfold get_yaml_categories; simpl. by destruct (is_substring _ _).
  - unfold get_yaml_categories; simpl. by destruct (existsb _ _).
  - rewrite get_yaml_categories_mapping.
    destruct (find _ d) as [[k v]|] eqn:Hfind; simpl; [|done].
    destruct v; try done. intros [= ->].
    apply find_some in Hfind as [Hin Hk]. exists d, k.
    split_and!; [done..|]. by apply list_elem_of_In.
Qed.
End loader_facts.

(** C3. The loader does not print its diagnostic for every document
    without a [categories] mapping.  For an empty document, which
    loads as [None], the membership test raises a [TypeError] that no
    handler catches: the process ends by a traceback, not by the
    diagnostic of the loader.  The same happens for a top-level list or
    string that contains [categories], at the index operation. *)
Theorem empty_document_is_uncaught :
  get_yaml_categories (Loaded ONone) = Uncaught Not_iterable ∧
  get_yaml_categories (Loaded (OList [OStr "categories"])) = Uncaught Bad_index ∧
  get_yaml_categories (Loaded (OStr "categories")) = Uncaught Bad_index ∧
  get_yaml_categories (Loaded (OList [])) = Exited Err_categories 1 ∧
  get_yaml_categories (Loaded (ODict [])) = Exited Err_categories 1.
Proof. by split_and!. Qed.

(** * Runs *)

(** The store and the categories of the first scenario agree, and the
    document has the two descriptors the scenario gives. *)
Example scenario_in_sync :
  main (B:=Decimal.builtins) Scenario.args Scenario.store
    Scenario.categories true
  = {| stdout :=
         [Msg_comparing; Msg_connecting "localhost" "5432"; Msg_found_db 2;
          Msg_loading "source/parameters.yaml"; Msg_found_yaml 2 2;
          Msg_results; Msg_in_sync;
          Msg_generating "source/postgresql.conf.yaml";
          Msg_generated "source/postgresql.conf.yaml"];
       stderr := [];
       output_file :=
         Some
           {| s_type := "object";
              s_description :=
                "Schema for PostgreSQL configuration settings (postgresql.conf), grouped by category.";
              s_properties :=
                [("memory",
                  {| cs_type := "object";
                     cs_description := "Settings for the memory category.";
                     cs_properties :=
                       [("shared_buffers",
                         [("type", VStr "integer");
                          ("description",
                           VStr "Sets the number of shared memory buffers used by the server. (Unit: 8kB)");
                          ("default", VInt 16384); ("minimum", VInt 16);
                          ("maximum", VInt 2147483647)])] |});
                 ("logging",
                  {| cs_type := "object";
                     cs_description := "Settings for the logging category.";
                     cs_properties :=
                       [("log_min_messages",
                         [("type", VStr "string");
                          ("description",
                           VStr "Sets the message levels that are logged.");
                          ("default", VStr "warning");
                          ("enum",
                           VList ["debug5"; "debug1"; "info"; "warning"])])] |})]
           |};
       exit_status := 0 |}.
Proof. by vm_compute. Qed.

(** A name declared in a category and absent from the store is
    reported, and nothing is written. *)
Example scenario_declared_but_absent :
  main (B:=Decimal.builtins) Scenario.args Scenario.store
    (("memory", ["shared_buffers"; "work_mem"])
     :: ("logging", ["log_min_messages"]) :: []) true
  = {| stdout :=
         [Msg_comparing; Msg_connecting "localhost" "5432"; Msg_found_db 2;
          Msg_loading "source/parameters.yaml"; Msg_found_yaml 3 2;
          Msg_results; Msg_yaml_not_db; Msg_item "work_mem"];
       stderr := [];
       output_file := None;
       exit_status := 1 |}.
Proof. by vm_compute. Qed.

(** A name of the store that no category declares is reported, and
    nothing is written. *)
Example scenario_present_but_undeclared :
  main (B:=Decimal.builtins) Scenario.args
    (("jit", Examples.autovacuum) :: Scenario.store)
    Scenario.categories true
  = {| stdout :=
         [Msg_comparing; Msg_connecting "localhost" "5432"; Msg_found_db 3;
          Msg_loading "source/parameters.yaml"; Msg_found_yaml 2 2;
          Msg_results; Msg_db_not_yaml; Msg_item "jit"];
       stderr := [];
       output_file := None;
       exit_status := 1 |}.
Proof. by vm_compute. Qed.

(** A [bool] reset value other than [on], here [true], gives the
    default [false]. *)
Example bool_default_of_true_literal :
  build_prop (B:=Decimal.builtins) "fsync" Examples.fsync
  = ([], inr [("type", VStr "boolean");
              ("description",
               VStr "Forces synchronization of updates to disk.");
              ("default", VBool false)]).
Proof. by vm_compute. Qed.

(** Repeated names make the generator print a warning once for each
    occurrence. *)
Example repeated_names_warn_twice :
  (generate_schema_yaml (B:=Decimal.builtins)
     Examples.store Examples.categories_repeated).1
  = [Warn_convert "4MB" "work_mem" (ValueError_int "4MB");
     Warn_convert "4MB" "work_mem" (ValueError_int "4MB")] ∧
  (generate_schema_yaml (B:=Decimal.builtins)
     Examples.store Examples.categories).1
  = [Warn_convert "4MB" "work_mem" (ValueError_int "4MB")].
Proof. by vm_compute. Qed.

(** * Further properties of the generator *)

Section generator_outcomes.
Context `{B : Builtins}.
Implicit Types (db : list (string * setting_row)) (l : list string).
Implicit Types (cats : list (string * list string)).

Lemma bind_warned {A C} (m : gen A) (f : A → gen C) d :
  d ∈ (m ≫= f).1 → d ∈ m.1 ∨ ∃ a, m.2 = inr a ∧ d ∈ (f a).1.
Proof.
  destruct m as [w [e|a]]; unfold mbind, gen_bind; simpl; [by left|].
  destruct (f a) as [w' r] eqn:Hf; simpl.
  intros [?|?]%elem_of_app; [by left|]. right. exists a. by rewrite Hf.
Qed.

Lemma bind_raised {A C} (m : gen A) (f : A → gen C) e :
  (m ≫= f).2 = inl e → m.2 = inl e ∨ ∃ a, m.2 = inr a ∧ (f a).2 = inl e.
Proof.
  destruct m as [w [e'|a]]; unfold mbind, gen_bind; simpl;
    [intros [= ->]; by left|].
  destruct (f a) as [w' r] eqn:Hf; simpl. intros ->. right. exists a.
  by rewrite Hf.
Qed.

Lemma settings_loop_raised db l acc e :
  (settings_loop db l acc).2 = inl e →
  ∃ n r, n ∈ l ∧ dict_get n db = Some r ∧ (build_prop n r).2 = inl e.
Proof.
  revert acc. induction l as [|x l IH]; intros acc; cbn [settings_loop];
    [done|].
  destruct (dict_get x db) as [r|] eqn:Hx.
  - intros [Hp|(p & _ & Hl)]%bind_raised.
    + exists x, r. split_and!; [left|done..].
    + destruct (IH _ Hl) as (n & r' & ? & ? & ?). exists n, r'.
      split_and!; [by right|done..].
  - rewrite warn_then_outcome. intros Hl.
    destruct (IH _ Hl) as (n & r' & ? & ? & ?). exists n, r'.
    split_and!; [by right|done..].
Qed.

Lemma settings_loop_warned db l acc d :
  d ∈ (settings_loop db l acc).1 →
  (∃ n, n ∈ l ∧ dict_get n db = None ∧ d = Warn_not_found n) ∨
  (∃ n r, n ∈ l ∧ dict_get n db = Some r ∧ d ∈ (build_prop n r).1).
Proof.
  revert acc. induction l as [|x l IH]; intros acc; cbn [settings_loop].
  - by intros ?%elem_of_nil.
  - destruct (dict_get x db) as [r|] eqn:Hx.
    + intros [Hd|(p & _ & Hd)]%bind_warned.
      * right. exists x, r. split_and!; [left|done..].
      * destruct (IH _ Hd) as [(n & ? & ? & ?)|(n & r' & ? & ? & ?)].
        -- left. exists n. split_and!; [by right|done..].
        -- right. exists n, r'. split_and!; [by right|done..].
    + intros [Hd|(? & _ & Hd)]%bind_warned.
      * apply list_elem_of_singleton in Hd as ->. left. exists x.
        split_and!; [left|done..].
      * destruct (IH _ Hd) as [(n & ? & ? & ?)|(n & r' & ? & ? & ?)].
        -- left. exists n. split_and!; [by right|done..].
        -- right. exists n, r'. split_and!; [by right|done..].
Qed.

Lemma build_category_raised db c l e :
  (build_category db c l).2 = inl e →
  ∃ n r, n ∈ l ∧ dict_get n db = Some r ∧ (build_prop n r).2 = inl e.
Proof.
  unfold build_category. intros [Hl|(? & _ & [=])]%bind_raised.
  destruct (settings_loop_raised _ _ _ _ Hl) as (n & r & Hn & ? & ?).
  rewrite elem_of_sorted in Hn. by exists n, r.
Qed.

Lemma build_category_warned db c l d :
  d ∈ (build_category db c l).1 →
  (∃ n, n ∈ l ∧ dict_get n db = None ∧ d = Warn_not_found n) ∨
  (∃ n r, n ∈ l ∧ dict_get n db = Some r ∧ d ∈ (build_prop n r).1).
Proof.
  unfold build_category.
  intros [Hd|(? & _ & Hd)]%bind_warned; [|by apply elem_of_nil in Hd].
  destruct (settings_loop_warned _ _ _ _ Hd)
    as [(n & Hn & ? & ?)|(n & r & Hn & ? & ?)];
    rewrite elem_of_sorted in Hn; [left; by exists n|right; by exists n, r].
Qed.

Lemma categories_loop_raised db cats acc e :
  (categories_loop db cats acc).2 = inl e →
  ∃ c l, (c, l) ∈ cats ∧ (build_category db c l).2 = inl e.
Proof.
  revert acc. induction cats as [|[c l] cats IH]; intros acc;
    cbn [categories_loop]; [done|].
  intros [Hc|(cs & _ & Hl)]%bind_raised.
  - exists c, l. split; [left|done].
  - destruct (IH _ Hl) as (c' & l' & ? & ?). exists c', l'.
    split; [by right|done].
Qed.

Lemma categories_loop_warned db cats acc d :
  d ∈ (categories_loop db cats acc).1 →
  ∃ c l, (c, l) ∈ cats ∧ d ∈ (build_category db c l).1.
Proof.
  revert acc. induction cats as [|[c l] cats IH]; intros acc;
    cbn [categories_loop]; [by intros ?%elem_of_nil|].
  intros [Hc|(cs & _ & Hl)]%bind_warned.
  - exists c, l. split; [left|done].
  - destruct (IH _ Hl) as (c' & l' & ? & ?). exists c', l'.
    split; [by right|done].
Qed.

Lemma categories_loop_returned_each db cats acc w props c l :
  categories_loop db cats acc = (w, inr props) → (c, l) ∈ cats →
  ∃ w' cs, build_category db c l = (w', inr cs).
Proof.
  revert acc w. induction cats as [|[c' l'] cats IH]; intros acc w;
    cbn [categories_loop]; [by intros _ ?%elem_of_nil|].
  intros (w1 & cs & w2 & Hcs & Hl & _)%bind_returns
    [[= -> ->]|Hin]%elem_of_cons; [by exists w1, cs|by eapply IH].
Qed.

Lemma generate_raised db cats e :
  (generate_schema_yaml db cats).2 = inl e →
  ∃ n r, listed cats n ∧ dict_get n db = Some r ∧
         (build_prop n r).2 = inl e.
Proof.
  unfold generate_schema_yaml. intros [Hl|(? & _ & [=])]%bind_raised.
  destruct (categories_loop_raised _ _ _ _ Hl) as (c & l & Hc & Hcat).
  destruct (build_category_raised _ _ _ _ Hcat) as (n & r & Hn & ? & ?).
  exists n, r. split; [by exists c, l|done].
Qed.

Lemma generate_returned_each db cats w doc n r :
  generate_schema_yaml db cats = (w, inr doc) →
  listed cats n → dict_get n db = Some r →
  ∃ w' p, build_prop n r = (w', inr p).
Proof.
  intros [_ Hloop]%generate_returns (c & l & Hc & Hn) Hr.
  destruct (categories_loop_returned_each _ _ _ _ _ _ _ Hloop Hc)
    as (w' & cs & Hcat).
  destruct (build_category_returns _ _ _ _ _ Hcat) as (_ & _ & Hsl).
  destruct (settings_loop_lookup _ _ _ _ _ n r Hsl Hr) as (w1 & p & Hp & _);
    [left; by rewrite elem_of_sorted|by exists w1, p].
Qed.
End generator_outcomes.

Section generator_inputs.
Context `{B : Builtins}.
Implicit Types (db : list (string * setting_row)) (l : list string).
Implicit Types (cats : list (string * list string)).

Lemma bind_same {A C} (m : gen A) (f g : A → gen C) :
  (∀ a, f a = g a) → m ≫= f = m ≫= g.
Proof.
  intros Hfg. destruct m as [w [e|a]]; unfold mbind, gen_bind; [done|].
  by rewrite Hfg.
Qed.

(** The generator reads the store through its lookups only. *)
Lemma settings_loop_same_lookups db db' l acc :
  (∀ n, dict_get n db = dict_get n db') →
  settings_loop db l acc = settings_loop db' l acc.
Proof.
  intros Hdb. revert acc. induction l as [|x l IH]; intros acc; [done|].
  cbn [settings_loop]. rewrite <- Hdb. destruct (dict_get x db); [|by rewrite IH].
  apply bind_same. intros p. apply IH.
Qed.

Lemma categories_loop_same db db' cats cats' acc :
  Forall2 (λ it it', it'.1 = it.1 ∧
             build_category db it.1 it.2 = build_category db' it'.1 it'.2)
    cats cats' →
  categories_loop db cats acc = categories_loop db' cats' acc.
Proof.
  intros Hcats. revert acc.
  induction Hcats as [|[c l] [c' l'] cats cats' [Hc Hcat] _ IH]; intros acc;
    [done|].
  simpl in Hc, Hcat; subst c'. cbn [categories_loop]. rewrite Hcat.
  apply bind_same. intros cs. apply IH.
Qed.

Lemma sorted_Permutation_eq l l' : l ≡ₚ l' → sorted l = sorted l'.
Proof.
  intros Hp. apply (StronglySorted_unique String.le);
    [apply sorted_StronglySorted..|].
  by rewrite !sorted_Permutation.
Qed.

Lemma db_settings_same_lookups db db' :
  (∀ n, dict_get n db = dict_get n db') → db_settings db = db_settings db'.
Proof.
  intros Hdb. apply set_eq. intros x. rewrite !elem_of_db_settings.
  unfold found. by rewrite Hdb.
Qed.

Lemma yaml_settings_Permutation cats cats' :
  Forall2 (λ it it', it'.1 = it.1 ∧ it'.2 ≡ₚ it.2) cats cats' →
  yaml_settings cats' = yaml_settings cats.
Proof.
  unfold yaml_settings. induction 1 as [|[c l] [c' l'] ?? [_ Hp] _ IH];
    [done|].
  csimpl in *. rewrite IH. f_equal. apply set_eq. intros x.
  by rewrite !elem_of_list_to_set, Hp.
Qed.
End generator_inputs.

(** X5. The generator returns a document exactly when the bounds of
    every record that is listed in a category and present in the store
    are read by the builtin of the record's type; reset values, unknown
    types and names missing from the store never make it fail. *)
Theorem generate_returns_iff_bounds_ok `{B : Builtins} db cats :
  (∃ w doc, generate_schema_yaml db cats = (w, inr doc)) ↔
  (∀ n r, listed cats n → dict_get n db = Some r → bounds_ok r).
Proof.
  split.
  - intros (w & doc & Hgen) n r Hn Hr.
    destruct (generate_returned_each _ _ _ _ _ _ Hgen Hn Hr) as (w' & p & Hp).
    by eapply build_prop_returns_bounds_ok.
  - intros Hok.
    destruct (generate_schema_yaml db cats) as [w [e|doc]] eqn:Hgen;
      [|by exists w, doc].
    destruct (generate_raised db cats e) as (n & r & Hn & Hr & Hp);
      [by rewrite Hgen|].
    destruct (build_prop_total n r (Hok n r Hn Hr)) as (w' & p & Hp').
    by rewrite Hp' in Hp.
Qed.

(** X6. When the generator leaves through an exception, it is the
    [ValueError] of [int] or [float] on the minimum or the maximum of
    an [integer] or [real] record that is listed and present in the
    store. *)
Theorem generate_raises_only_on_bounds `{B : Builtins} db cats w e :
  generate_schema_yaml db cats = (w, inl e) →
  ∃ n r s, listed cats n ∧ dict_get n db = Some r ∧
    (min_val r = Some s ∨ max_val r = Some s) ∧
    (vartype r = "integer" ∧ py_int s = None ∧ e = ValueError_int s ∨
     vartype r = "real" ∧ py_float s = None ∧ e = ValueError_float s).
Proof.
  intros Hgen.
  destruct (generate_raised db cats e) as (n & r & Hn & Hr & Hp);
    [by rewrite Hgen|].
  destruct (build_prop_raises _ _ _ Hp)
    as [(Hty & s & Hs & ? & ->)|(Hty & s & Hs & ? & ->)];
    exists n, r, s; split_and!; auto.
Qed.

Lemma generate_raises_only_on_bounds_witness :
  ∃ n r s, listed Examples.categories_bad_bound n ∧
    dict_get n Examples.store_bad_bound = Some r ∧
    (min_val r = Some s ∨ max_val r = Some s) ∧
    (vartype r = "integer" ∧ py_int (Builtins:=Decimal.builtins) s = None ∧
     ValueError_int "one" = ValueError_int s ∨
     vartype r = "real" ∧ py_float (Builtins:=Decimal.builtins) s = None ∧
     ValueError_int "one" = ValueError_float s).
Proof.
  apply (generate_raises_only_on_bounds (B:=Decimal.builtins)
           Examples.store_bad_bound Examples.categories_bad_bound []).
  by vm_compute.
Defined.

(** X7. Every warning of the generator is one of two: a listed name
    that the store does not have, or the reset value of a listed record
    of the store that does not convert. *)
Theorem generate_warns_only_for `{B : Builtins} db cats d :
  d ∈ (generate_schema_yaml db cats).1 →
  (∃ n, listed cats n ∧ dict_get n db = None ∧ d = Warn_not_found n) ∨
  (∃ n r s e, listed cats n ∧ dict_get n db = Some r ∧
              reset_val r = Some s ∧
              convert_reset_val (vartype r) s = inl e ∧
              d = Warn_convert s n e).
Proof.
  unfold generate_schema_yaml.
  intros [Hd|(? & _ & Hd)]%bind_warned; [|by apply elem_of_nil in Hd].
  destruct (categories_loop_warned _ _ _ _ Hd) as (c & l & Hc & Hcat).
  destruct (build_category_warned _ _ _ _ Hcat)
    as [(n & Hn & ? & ?)|(n & r & Hn & Hr & Hw)].
  - left. exists n. split; [by exists c, l|done].
  - right. rewrite build_prop_warnings in Hw.
    destruct (reset_val r) as [s|] eqn:Hs; [|by apply elem_of_nil in Hw].
    destruct (convert_reset_val (vartype r) s) as [e|v] eqn:He;
      [|by apply elem_of_nil in Hw].
    apply list_elem_of_singleton in Hw as ->.
    exists n, r, s, e. split; [by exists c, l|done].
Qed.

Lemma generate_warns_only_for_witness :
  (∃ n, listed Examples.categories n ∧ dict_get n Examples.store = None ∧
        Warn_convert "4MB" "work_mem" (ValueError_int "4MB")
        = Warn_not_found n) ∨
  (∃ n r s e, listed Examples.categories n ∧
              dict_get n Examples.store = Some r ∧
              reset_val r = Some s ∧
              convert_reset_val (B:=Decimal.builtins) (vartype r) s = inl e ∧
              Warn_convert "4MB" "work_mem" (ValueError_int "4MB")
              = Warn_convert s n e).
Proof.
  apply (generate_warns_only_for (B:=Decimal.builtins)
           Examples.store Examples.categories).
  vm_compute. left.
Defined.

(** X8. In a generated document the values under [default], [minimum]
    and [maximum] are of the JSON type that the descriptor declares
    under [type]: a boolean, an integer, a number or a string. *)
Theorem values_conform_to_type `{B : Builtins}
    db cats n r (p : prop pyfloat) :
  emitted db cats n r p →
  ∃ ty, dict_get "type" p = Some (VStr ty) ∧
        ∀ k v, k ∈ ["default"; "minimum"; "maximum"] →
               dict_get k p = Some v → conforms ty v.
Proof.
  intros [w Hp]%emitted_build_prop.
  destruct (build_prop_lookup _ _ _ _ Hp)
    as (Hty & _ & Hdef & Hmin & Hmax & _).
  exists (json_type (vartype r)). split; [done|].
  assert (∀ vt o v, numeric_bound vt o = Some v → conforms (json_type vt) v)
    as Hnb.
  { intros vt [s|] v; unfold numeric_bound; simpl; [|done].
    destruct (decide (vt = "integer")) as [->|_];
      [by destruct (py_int s); intros [= <-]|].
    destruct (decide (vt = "real")) as [->|_]; [|done].
    by destruct (py_float s); intros [= <-]. }
  assert (∀ vt s v, convert_reset_val vt s = inr v →
                    conforms (json_type vt) v) as Hcv.
  { intros vt s v. unfold convert_reset_val.
    destruct (decide (vt = "bool")) as [->|Hb]; [by intros [= <-]|].
    destruct (decide (vt = "integer")) as [->|Hi];
      [by destruct (py_int s); intros [= <-]|].
    destruct (decide (vt = "real")) as [->|Hr];
      [by destruct (py_float s); intros [= <-]|].
    intros [= <-]. by apply json_type_other. }
  intros k v Hk. rewrite !elem_of_cons, elem_of_nil in Hk.
  destruct Hk as [->|[->|[->|[]]]].
  - rewrite Hdef. unfold default_value.
    destruct (reset_val r) as [s|]; simpl; [|done].
    destruct (convert_reset_val (vartype r) s) as [e|v'] eqn:Hc; [done|].
    intros [= <-]. by eapply Hcv.
  - rewrite Hmin. apply Hnb.
  - rewrite Hmax. apply Hnb.
Qed.

Lemma values_conform_to_type_witness :
  let p : prop Q :=
    [("type", VStr "number");
     ("description",
      VStr "Time spent flushing dirty buffers during checkpoint, as fraction of checkpoint interval.");
     ("default", VFloat 0.9%Q); ("minimum", VFloat 0%Q)] in
  ∃ ty, dict_get "type" p = Some (VStr ty) ∧
        ∀ k v, k ∈ ["default"; "minimum"; "maximum"] →
               dict_get k p = Some v →
               conforms (B:=Decimal.builtins) ty v.
Proof.
  apply (values_conform_to_type (B:=Decimal.builtins)
           Examples.store Examples.categories "checkpoint_completion_target"
           Examples.checkpoint_completion_target).
  eexists _, _, "maintenance", _. split_and!; vm_compute; reflexivity.
Defined.

(** X9. The keys of a descriptor of a generated document are distinct
    and come in the fixed order [type], [description], [default],
    [minimum], [maximum], [enum], the first two always there. *)
Theorem descriptor_keys_in_order `{B : Builtins}
    db cats n r (p : prop pyfloat) :
  emitted db cats n r p →
  p.*1 `sublist_of` descriptor_keys ∧ NoDup p.*1 ∧
  take 2 p.*1 = ["type"; "description"].
Proof.
  intros [w ->%build_prop_returns]%emitted_build_prop.
  destruct (default_value r), (numeric_bound _ (min_val r)),
    (numeric_bound _ (max_val r)), (enum_value r); csimpl;
    (split_and!;
     [repeat first [apply sublist_nil_l|apply sublist_skip|apply sublist_cons]
     |by apply (bool_decide_unpack _)
     |done]).
Qed.

Lemma descriptor_keys_in_order_witness :
  let p : prop Q :=
    [("type", VStr "integer");
     ("description",
      VStr "Sets the maximum memory to be used for query workspaces. (Unit: kB)");
     ("minimum", VInt 64); ("maximum", VInt 2147483647)] in
  p.*1 `sublist_of` descriptor_keys ∧ NoDup p.*1 ∧
  take 2 p.*1 = ["type"; "description"].
Proof.
  apply (descriptor_keys_in_order (B:=Decimal.builtins)
           Examples.store Examples.categories "work_mem" Examples.work_mem).
  eexists _, _, "memory", _. split_and!; vm_compute; reflexivity.
Defined.

(** X10. A record whose type is none of [bool], [integer] and [real]
    (a [string], an [enum], or a type the table does not know) always
    gets its descriptor, without a warning: the type is [string], the
    default is the reset value as it is, and there are no bounds. *)
Theorem other_types_never_fail `{B : Builtins} n r :
  vartype r ≠ "bool" → vartype r ≠ "integer" → vartype r ≠ "real" →
  ∃ p, build_prop n r = ([], inr p) ∧
       dict_get "type" p = Some (VStr "string") ∧
       dict_get "default" p = VStr <$> reset_val r ∧
       dict_get "minimum" p = None ∧ dict_get "maximum" p = None.
Proof.
  intros Hb Hi Hr. eexists. split; [by apply build_prop_other_types|].
  by destruct (reset_val r), (enum_value r).
Qed.

Lemma other_types_never_fail_witness :
  ∃ p, build_prop (B:=Decimal.builtins) "log_min_messages"
         Scenario.log_min_messages = ([], inr p) ∧
       dict_get "type" p = Some (VStr "string") ∧
       dict_get "default" p = Some (VStr "warning") ∧
       dict_get "minimum" p = None ∧ dict_get "maximum" p = None.
Proof.
  by apply (other_types_never_fail (B:=Decimal.builtins)
              "log_min_messages" Scenario.log_min_messages).
Defined.

(** X11. A generated document is an [object], and so is each of its
    sub-schemas, whose description names the category it stands
    under. *)
Theorem document_shape `{B : Builtins} db cats w doc :
  generate_schema_yaml db cats = (w, inr doc) →
  s_type doc = "object" ∧
  ∀ c cs, dict_get c (s_properties doc) = Some cs →
          cs_type cs = "object" ∧
          cs_description cs = "Settings for the " +:+ c +:+ " category.".
Proof.
  intros Hgen. split; [by destruct (generate_returns _ _ _ _ Hgen)|].
  intros c cs Hc.
  destruct (generate_category _ _ _ _ _ _ Hgen Hc) as (l & w' & _ & Hcat).
  by destruct (build_category_returns _ _ _ _ _ Hcat) as (? & ? & _).
Qed.

Lemma document_shape_witness :
  ∃ doc : schema Q,
    (generate_schema_yaml (B:=Decimal.builtins)
       Scenario.store Scenario.categories).2 = inr doc ∧
    s_type doc = "object" ∧
    ∀ c cs, dict_get c (s_properties doc) = Some cs →
            cs_type cs = "object" ∧
            cs_description cs = "Settings for the " +:+ c +:+ " category.".
Proof.
  eexists. split; [by vm_compute|].
  apply (document_shape (B:=Decimal.builtins)
           Scenario.store Scenario.categories []).
  by vm_compute.
Defined.

(** X12. The run depends on the store through its lookups only: two
    stores that map every name to the same record, whatever the order
    of their rows, give the same warnings, the same document and the
    same run of the driver. *)
Theorem store_order_is_irrelevant `{B : Builtins}
    args db db' cats writable :
  (∀ n, dict_get n db = dict_get n db') →
  generate_schema_yaml db cats = generate_schema_yaml db' cats ∧
  main args db cats writable = main args db' cats writable.
Proof.
  intros Hdb.
  assert (generate_schema_yaml db cats = generate_schema_yaml db' cats)
    as Hgen.
  { unfold generate_schema_yaml. f_equal.
    apply categories_loop_same, Forall2_same_length_lookup_2; [done|].
    intros i [c l] [c' l'] H1 H2. simplify_eq. split; [done|].
    unfold build_category; simpl. f_equal.
    by apply settings_loop_same_lookups. }
  split; [done|].
  unfold main, in_yaml_not_in_db, in_db_not_in_yaml.
  by rewrite Hgen, (db_settings_same_lookups db db' Hdb).
Qed.

Lemma store_order_is_irrelevant_witness :
  main (B:=Decimal.builtins) Scenario.args Scenario.store
    Scenario.categories true
  = main (B:=Decimal.builtins) Scenario.args (reverse Scenario.store)
      Scenario.categories true.
Proof.
  apply (store_order_is_irrelevant (B:=Decimal.builtins)).
  intros n. simpl. repeat case_decide; by simplify_eq.
Defined.

(** X13. The order of the names in the list of a category is
    irrelevant: lists that are permutations of each other give the same
    warnings, the same document and the same run of the driver. *)
Theorem list_order_is_irrelevant `{B : Builtins}
    args db cats cats' writable :
  Forall2 (λ it it', it'.1 = it.1 ∧ it'.2 ≡ₚ it.2) cats cats' →
  generate_schema_yaml db cats = generate_schema_yaml db cats' ∧
  main args db cats writable = main args db cats' writable.
Proof.
  intros Hcats.
  assert (generate_schema_yaml db cats = generate_schema_yaml db cats')
    as Hgen.
  { unfold generate_schema_yaml. f_equal.
    apply categories_loop_same. eapply Forall2_impl; [exact Hcats|].
    intros [c l] [c' l'] [Hc Hp]; simpl in *; subst c'. split; [done|].
    unfold build_category. by rewrite (sorted_Permutation_eq l l'). }
  split; [done|].
  unfold main, in_yaml_not_in_db, in_db_not_in_yaml.
  by rewrite Hgen, (yaml_settings_Permutation _ _ Hcats),
    (Forall2_length _ _ _ Hcats).
Qed.

Lemma list_order_is_irrelevant_witness :
  generate_schema_yaml (B:=Decimal.builtins) Examples.store
    [("memory", ["work_mem"; "shared_buffers"; "work_mem"])]
  = generate_schema_yaml (B:=Decimal.builtins) Examples.store
      [("memory", ["shared_buffers"; "work_mem"; "work_mem"])].
Proof.
  apply (list_order_is_irrelevant (B:=Decimal.builtins) Scenario.args
           Examples.store _ _ true).
  constructor; [|constructor]. split; [done|]. simpl. apply Permutation_swap.
Defined.

(** * Further properties of the driver *)

Section driver_outcomes.
Context `{B : Builtins}.
Implicit Types (db : list (string * setting_row)).
Implicit Types (cats : list (string * list string)).

Lemma listed_yaml_settings cats x : listed cats x ↔ x ∈ yaml_settings cats.
Proof. unfold listed. by rewrite elem_of_yaml_settings. Qed.

Lemma found_iff_not_None db x : found db x ↔ dict_get x db ≠ None.
Proof. unfold found. destruct (dict_get x db); split; by eauto. Qed.

Lemma elem_of_in_yaml_not_in_db db cats x :
  x ∈ in_yaml_not_in_db db cats ↔ listed cats x ∧ dict_get x db = None.
Proof.
  unfold in_yaml_not_in_db.
  rewrite elem_of_sorted, elem_of_elements, elem_of_difference.
  rewrite listed_yaml_settings, elem_of_db_settings, found_iff_not_None.
  destruct (dict_get x db); intuition congruence.
Qed.

Lemma elem_of_in_db_not_in_yaml db cats x :
  x ∈ in_db_not_in_yaml db cats ↔ found db x ∧ ¬ listed cats x.
Proof.
  unfold in_db_not_in_yaml.
  rewrite elem_of_sorted, elem_of_elements, elem_of_difference.
  by rewrite listed_yaml_settings, elem_of_db_settings.
Qed.

Lemma sorted_elements_strict (X : gset string) :
  StronglySorted str_lt (sorted (elements X)).
Proof.
  apply StronglySorted_strict; [apply sorted_StronglySorted|].
  rewrite sorted_Permutation. apply NoDup_elements.
Qed.

#[local] Instance Msg_item_inj : Inj (=) (=) Msg_item.
Proof. by intros ?? [=]. Qed.

Lemma item_in_report header l x :
  (∀ y, header ≠ Msg_item y) →
  Msg_item x ∈ header :: (Msg_item <$> l) ↔ x ∈ l.
Proof.
  intros Hh. rewrite elem_of_cons, (list_elem_of_fmap_inj Msg_item).
  split; [intros [Heq|?]; [by destruct (Hh x)|done]|by right].
Qed.

Lemma item_not_in_header args db cats x :
  Msg_item x ∉
    [Msg_comparing; Msg_connecting (host args) (port args);
     Msg_found_db (size (db_settings db));
     Msg_loading (yaml_file_path args);
     Msg_found_yaml (size (yaml_settings cats)) (length cats);
     Msg_results].
Proof.
  rewrite !elem_of_cons, elem_of_nil. intros Hin.
  by repeat destruct Hin as [Hin|Hin].
Qed.

(** The names printed by the driver are those of the two difference
    lists. *)
Lemma stdout_items args db cats writable x :
  Msg_item x ∈ stdout (main args db cats writable) ↔
  x ∈ in_yaml_not_in_db db cats ∨ x ∈ in_db_not_in_yaml db cats.
Proof.
  unfold main. pose proof (item_not_in_header args db cats x) as Hout.
  destruct (in_yaml_not_in_db db cats) as [|x1 l1] eqn:Hm;
    destruct (in_db_not_in_yaml db cats) as [|x2 l2] eqn:He.
  - destruct (generate_schema_yaml db cats) as [w [e|doc]];
      [|destruct writable]; cbn [stdout];
      rewrite ?elem_of_app, !elem_of_cons, !elem_of_nil;
      (split; [intros Hin; by repeat destruct Hin as [Hin|Hin]|tauto]).
  - cbv beta iota zeta. cbn [stdout]. rewrite !elem_of_app.
    rewrite (item_in_report Msg_db_not_yaml) by done.
    rewrite !elem_of_nil. tauto.
  - cbv beta iota zeta. cbn [stdout]. rewrite !elem_of_app.
    rewrite (item_in_report Msg_yaml_not_db) by done.
    rewrite !elem_of_nil. tauto.
  - cbv beta iota zeta. cbn [stdout]. rewrite !elem_of_app.
    rewrite (item_in_report Msg_db_not_yaml) by done.
    rewrite (item_in_report Msg_yaml_not_db) by done. tauto.
Qed.

(** A document is written only when the name sets agree, and it is the
    document of the generator. *)
Lemma main_written args db cats writable doc :
  output_file (main args db cats writable) = Some doc →
  yaml_settings cats = db_settings db ∧
  ∃ w, generate_schema_yaml db cats = (w, inr doc).
Proof.
  destruct (decide (yaml_settings cats = db_settings db)) as [Heq|Hne].
  - rewrite (main_in_sync args db cats writable Heq).
    destruct (generate_schema_yaml db cats) as [w [e|doc']];
      [done|destruct writable; [|done]].
    intros [= ->]. split; [done|by exists w].
  - by destruct (main_mismatch args db cats writable Hne) as (? & -> & _).
Qed.

Lemma generate_warned_not_found db cats n :
  Warn_not_found n ∈ (generate_schema_yaml db cats).1 →
  listed cats n ∧ dict_get n db = None.
Proof.
  unfold generate_schema_yaml.
  intros [Hd|(? & _ & Hd)]%bind_warned; [|by apply elem_of_nil in Hd].
  destruct (categories_loop_warned _ _ _ _ Hd) as (c & l & Hc & Hcat).
  destruct (build_category_warned _ _ _ _ Hcat)
    as [(n' & Hn & ? & [= ->])|(n' & r & Hn & Hr & Hw)].
  - split; [by exists c, l|done].
  - rewrite build_prop_warnings in Hw.
    destruct (reset_val r) as [s|]; [|by apply elem_of_nil in Hw].
    destruct (convert_reset_val (vartype r) s);
      [by apply list_elem_of_singleton in Hw|by apply elem_of_nil in Hw].
Qed.

Lemma generate_returns_of_bounds_ok db cats :
  (∀ n r, listed cats n → dict_get n db = Some r → bounds_ok r) →
  ∃ w doc, generate_schema_yaml db cats = (w, inr doc).
Proof.
  intros Hok.
  destruct (generate_schema_yaml db cats) as [w [e|doc]] eqn:Hgen;
    [|by exists w, doc].
  destruct (generate_raised db cats e) as (n & r & Hn & Hr & Hp);
    [by rewrite Hgen|].
  destruct (build_prop_total n r (Hok n r Hn Hr)) as (w' & p & Hp').
  by rewrite Hp' in Hp.
Qed.
End driver_outcomes.

(** X14. The two difference lists of the driver are in strictly
    increasing lexicographic order, hence without repetition; the first
    holds exactly the listed names that the store does not have, the
    second exactly the names of the store that no category lists. *)
Theorem difference_lists_sorted_and_exact db cats :
  StronglySorted str_lt (in_yaml_not_in_db db cats) ∧
  StronglySorted str_lt (in_db_not_in_yaml db cats) ∧
  (∀ x, x ∈ in_yaml_not_in_db db cats ↔
        listed cats x ∧ dict_get x db = None) ∧
  (∀ x, x ∈ in_db_not_in_yaml db cats ↔
        is_Some (dict_get x db) ∧ ¬ listed cats x).
Proof.
  split_and!; [apply sorted_elements_strict..| |].
  - apply elem_of_in_yaml_not_in_db.
  - apply elem_of_in_db_not_in_yaml.
Qed.

(** X15. The driver prints the line of a name exactly when the name is
    listed and absent from the store, or in the store and not listed:
    the report names every offending name and no other, and a run in
    agreement prints none. *)
Theorem report_names_every_mismatch `{B : Builtins}
    args db cats writable x :
  Msg_item x ∈ stdout (main args db cats writable) ↔
  (listed cats x ∧ dict_get x db = None) ∨
  (is_Some (dict_get x db) ∧ ¬ listed cats x).
Proof.
  by rewrite stdout_items, elem_of_in_yaml_not_in_db,
    elem_of_in_db_not_in_yaml.
Qed.

(** X16. The driver never prints the warning of the generator for a
    name missing from the store: the generator runs only when every
    listed name is in the store. *)
Theorem no_missing_name_warning `{B : Builtins} args db cats writable n :
  Err_warning (Warn_not_found n) ∉ stderr (main args db cats writable).
Proof.
  destruct (decide (yaml_settings cats = db_settings db)) as [Heq|Hne].
  - rewrite (main_in_sync args db cats writable Heq).
    assert (Warn_not_found n ∉ (generate_schema_yaml db cats).1) as Hw.
    { intros [Hl Hn]%generate_warned_not_found.
      apply listed_yaml_settings in Hl. rewrite Heq in Hl.
      apply elem_of_db_settings in Hl as [r Hr]. congruence. }
    destruct (generate_schema_yaml db cats) as [w [e|doc]];
      [|destruct writable]; cbn [stderr]; simpl in Hw;
      rewrite ?elem_of_app, ?list_elem_of_singleton, list_elem_of_fmap;
      intros Hin; repeat destruct Hin as [Hin|Hin]; try done;
      by destruct Hin as (d & [= <-] & Hd).
  - destruct (main_mismatch args db cats writable Hne) as (? & -> & _).
    apply not_elem_of_nil.
Qed.

(** X17. A document that the driver writes covers the store exactly
    (the category names being distinct, as the keys of a dictionary
    are): a name has a descriptor in some category of the document
    exactly when the store has a record for it. *)
Theorem written_document_covers_store `{B : Builtins}
    args db cats writable doc :
  NoDup cats.*1 →
  output_file (main args db cats writable) = Some doc →
  ∀ n, (∃ c cs p, dict_get c (s_properties doc) = Some cs ∧
                  dict_get n (cs_properties cs) = Some p) ↔
       is_Some (dict_get n db).
Proof.
  intros Hnd (Heq & w & Hgen)%main_written n. split.
  - intros (c & cs & p & Hc & Hn).
    destruct (generate_descriptor _ _ _ _ _ _ _ _ Hgen Hc Hn)
      as (r & _ & Hr & _).
    by exists r.
  - intros [r Hr].
    assert (listed cats n) as (c & l & Hc & Hn).
    { apply listed_yaml_settings. rewrite Heq.
      apply elem_of_db_settings. by exists r. }
    destruct (generate_lookup _ _ _ _ _ _ _ _ Hnd Hgen Hc Hn Hr)
      as (cs & _ & p & ? & ? & _).
    by exists c, cs, p.
Qed.

Lemma written_document_covers_store_witness :
  ∃ doc : schema Q,
    output_file (main (B:=Decimal.builtins) Scenario.args Examples.store
                   Examples.categories true) = Some doc ∧
    ∀ n, (∃ c cs p, dict_get c (s_properties doc) = Some cs ∧
                    dict_get n (cs_properties cs) = Some p) ↔
         is_Some (dict_get n Examples.store).
Proof.
  eexists. split; [by vm_compute|].
  apply (written_document_covers_store (B:=Decimal.builtins) Scenario.args
           Examples.store Examples.categories true).
  - by apply (bool_decide_unpack _).
  - by vm_compute.
Defined.

(** X18. The driver ends with status 0 exactly when the name sets
    agree, the bounds of every record of the store are read by the
    builtin of the record's type, and the output path is writable. *)
Theorem exit_status_zero_iff `{B : Builtins} args db cats writable :
  exit_status (main args db cats writable) = 0%Z ↔
  yaml_settings cats = db_settings db ∧
  (∀ n r, dict_get n db = Some r → bounds_ok r) ∧
  writable = true.
Proof.
  destruct (decide (yaml_settings cats = db_settings db)) as [Heq|Hne].
  - rewrite (main_in_sync args db cats writable Heq).
    assert (∀ n r, dict_get n db = Some r → listed cats n) as Hlisted.
    { intros n r Hr. apply listed_yaml_settings. rewrite Heq.
      apply elem_of_db_settings. by exists r. }
    split.
    + destruct (generate_schema_yaml db cats) as [w [e|doc]] eqn:Hgen;
        [done|destruct writable; [|done]].
      intros _. split_and!; [done| |done]. intros n r Hr.
      destruct (generate_returned_each _ _ _ _ _ _ Hgen
                  (Hlisted _ _ Hr) Hr) as (w' & p & Hp).
      by eapply build_prop_returns_bounds_ok.
    + intros (_ & Hok & ->).
      destruct (generate_returns_of_bounds_ok db cats) as (w & doc & ->);
        [by eauto|done].
  - destruct (main_mismatch args db cats writable Hne) as (? & -> & _).
    cbn [exit_status]. split; [done|]. by intros [? _].
Qed.

(** * Further properties of the two loaders *)

(** X3. The category loader returns a mapping exactly when the top
    level of the document is a mapping whose entry under the key
    [categories] is itself a mapping, and what it returns is that
    mapping, unchanged. *)
Theorem loader_returns_iff f categories :
  get_yaml_categories f = Returned categories ↔
  ∃ d k, f = Loaded (ODict d) ∧
         find (λ kv, is_categories kv.1) d = Some (k, ODict categories).
Proof.
  split.
  - destruct f as [| |data]; [done..|]. destruct data as [| | | | | |d];
      try done.
    + unfold get_yaml_categories; simpl. by destruct (is_substring _ _).
    + unfold get_yaml_categories; simpl. by destruct (existsb _ _).
    + rewrite get_yaml_categories_mapping.
      destruct (find _ d) as [[k v]|] eqn:Hfind; simpl; [|done].
      destruct v; try done. intros [= ->]. by exists d, k.
  - intros (d & k & -> & Hfind).
    by rewrite get_yaml_categories_mapping, Hfind.
Qed.

(** X4. When the category loader prints one of its three diagnostics
    and exits, the status is always 1: the diagnostic for a missing
    file or for a syntax error is printed exactly in that case, the one
    about [categories] for a document that was loaded.  When it ends in
    an uncaught [TypeError], the top level of the document is not a
    mapping. *)
Theorem loader_failures f :
  (∀ message status, get_yaml_categories f = Exited message status →
     status = 1%Z ∧
     (message = Err_not_found ↔ f = File_not_found) ∧
     (message = Err_parse ↔ f = Yaml_error) ∧
     (message = Err_categories ↔ ∃ data, f = Loaded data)) ∧
  (∀ e, get_yaml_categories f = Uncaught e →
     ∃ data, f = Loaded data ∧ ∀ d, data ≠ ODict d).
Proof.
  split.
  - intros message status.
    destruct f as [| |data]; simpl.
    + intros [= <- <-]. split_and!; try done. split; [done|by intros [? ?]].
    + intros [= <- <-]. split_and!; try done. split; [done|by intros [? ?]].
    + destruct (contains_categories data) as [e|[|]]; [done| |].
      * destruct (get_categories data) as [e|[[]|]]; try done;
          intros [= <- <-]; split_and!; try done; split; eauto.
      * intros [= <- <-]; split_and!; try done; split; eauto.
  - intros e. destruct f as [| |data]; [done..|]. intros He.
    exists data. split; [done|]. intros d ->.
    rewrite get_yaml_categories_mapping in He.
    by destruct (find _ d) as [[k []]|].
Qed.

Lemma loader_failures_witness :
  (1 = 1)%Z ∧
  (Err_categories = Err_not_found ↔ Loaded (OList []) = File_not_found) ∧
  (Err_categories = Err_parse ↔ Loaded (OList []) = Yaml_error) ∧
  (Err_categories = Err_categories ↔ ∃ data, Loaded (OList []) = Loaded data).
Proof.
  by apply (proj1 (loader_failures (Loaded (OList [])))).
Defined.

Section source_facts.
Implicit Types (rows : list setting_row) (acc : list (string * setting_row)).

Lemma foldl_dict_set_lookup acc rows n :
  dict_get n (foldl (λ d row, dict_set (name row) row d) acc rows) =
    match last (filter (λ r, name r = n) rows) with
    | Some r => Some r
    | None => dict_get n acc
    end.
Proof.
  revert acc. induction rows as [|r rows IH]; intros acc; [done|].
  cbn [foldl]. rewrite IH, filter_cons. case_decide as Hn.
  - rewrite last_cons. subst n.
    destruct (last (filter _ rows)); [done|]. apply dict_get_set_eq.
  - destruct (last (filter _ rows)); [done|]. by apply dict_get_set_ne.
Qed.

Lemma foldl_dict_set_NoDup acc rows :
  NoDup acc.*1 →
  NoDup (foldl (λ d row, dict_set (name row) row d) acc rows).*1.
Proof.
  revert acc. induction rows as [|r rows IH]; intros acc Hacc; [done|].
  cbn [foldl]. by apply IH, dict_set_NoDup.
Qed.

Lemma foldl_dict_set_distinct acc rows :
  NoDup (name <$> rows) → (∀ r, r ∈ rows → dict_get (name r) acc = None) →
  foldl (λ d row, dict_set (name row) row d) acc rows
  = acc ++ ((λ r, (name r, r)) <$> rows).
Proof.
  revert acc. induction rows as [|r rows IH]; intros acc; csimpl.
  - by rewrite app_nil_r.
  - intros [Hr Hnd]%NoDup_cons Hnew. rewrite IH; [|done|].
    + rewrite dict_set_new by (apply Hnew; left). by rewrite <- app_assoc.
    + intros r' Hr'. rewrite dict_get_set_ne; [apply Hnew; by right|].
      intros Heq. apply Hr. rewrite Heq. by apply list_elem_of_fmap_2.
Qed.
End source_facts.

(** X1. The mapping of the settings source has distinct keys, each of
    them the name of its record, and its key set is the set of the
    names of the rows fetched; a failure of the connection or of the
    query ends the process with status 1. *)
Theorem settings_keys_are_names q :
  match get_postgres_settings q with
  | Settings d =>
      ∃ rows, q = Fetched rows ∧ NoDup d.*1 ∧
        (∀ k r, (k, r) ∈ d → name r = k ∧ r ∈ rows) ∧
        db_settings d = list_to_set (name <$> rows)
  | Source_exited status => q = Query_error ∧ status = 1%Z
  end.
Proof.
  destruct q as [|rows]; simpl; [done|]. exists rows.
  assert (NoDup (rows_to_dict rows).*1) as Hnd
    by (apply foldl_dict_set_NoDup; constructor).
  assert (∀ k r, dict_get k (rows_to_dict rows) = Some r →
                 name r = k ∧ r ∈ rows) as Hget.
  { intros k r. unfold rows_to_dict. rewrite foldl_dict_set_lookup.
    destruct (last (filter _ rows)) as [r'|] eqn:Hlast; [|done].
    intros [= ->]. apply last_Some_elem_of in Hlast.
    by apply list_elem_of_filter in Hlast. }
  split_and!; [done..| |].
  - intros k r Hin. apply Hget. by apply dict_get_NoDup.
  - apply set_eq. intros k.
    rewrite elem_of_db_settings, elem_of_list_to_set, list_elem_of_fmap.
    unfold found, rows_to_dict. rewrite foldl_dict_set_lookup.
    destruct (last (filter _ rows)) as [r'|] eqn:Hlast; simpl.
    + apply last_Some_elem_of, list_elem_of_filter in Hlast as [? ?].
      split; [|by eauto]. intros _. by exists r'.
    + split; [by intros [? [=]]|]. intros (r & -> & Hr).
      apply last_None in Hlast.
      assert (r ∈ filter (λ r0, name r0 = name r) rows) as Hf
        by by apply list_elem_of_filter.
      rewrite Hlast in Hf. by apply elem_of_nil in Hf.
Qed.

(** X2. Looking a name up in the mapping of the settings source gives
    the last row fetched with that name; and when the rows have
    distinct names, as those of [pg_settings] have, the mapping lists
    them all, in the order in which they were fetched. *)
Theorem settings_lookup_is_last_row rows n :
  dict_get n (rows_to_dict rows) = last (filter (λ r, name r = n) rows) ∧
  (NoDup (name <$> rows) →
   rows_to_dict rows = (λ r, (name r, r)) <$> rows).
Proof.
  split.
  - unfold rows_to_dict. rewrite foldl_dict_set_lookup.
    by destruct (last (filter _ rows)).
  - intros Hnd. by apply (foldl_dict_set_distinct []).
Qed.

Lemma settings_lookup_is_last_row_witness :
  rows_to_dict [Scenario.shared_buffers; Scenario.log_min_messages]
  = Scenario.store.
Proof.
  apply (settings_lookup_is_last_row
           [Scenario.shared_buffers; Scenario.log_min_messages] "").
  by apply (bool_decide_unpack _).
Defined.
